(** * Image keyword filter of the search-engine API

  A shallow embedding of the image-filtering part of
  [search_engine_api.py]: [extract_text_from_image],
  [extract_keywords_from_image], [preprocess_query] and
  [filter_images_by_query], together with the Python string operations
  they use ([str.lower], [str.strip], [str.endswith], [in]); then of
  the two searches, [search_google_scholar] and [search_youtube], and
  of the route [process_query] that calls the three.

  Strings are sequences of 8-bit characters; [str.lower] and the
  whitespace test of [str.strip] are the ASCII ones.  The third-party
  collaborators (NLTK tokenizer and stopword list, RAKE, Pillow and
  Tesseract, the file system) are parameters of the development. *)

From Stdlib Require Import Ascii String.
From stdpp Require Import base option list strings gmap sorting.

(** ** Python string operations *)

Module PyStr.

Definition is_upper (c : ascii) : bool :=
  let n := nat_of_ascii c in (65 <=? n) && (n <=? 90).

Definition lower_char (c : ascii) : ascii :=
  if is_upper c then ascii_of_nat (nat_of_ascii c + 32) else c.

(** [s.lower()] *)
Fixpoint lower (s : string) : string :=
  match s with
  | EmptyString => EmptyString
  | String c s' => String (lower_char c) (lower s')
  end.

(** The characters [str.isspace] accepts below 128. *)
Definition is_space (c : ascii) : bool :=
  let n := nat_of_ascii c in
  ((9 <=? n) && (n <=? 13)) || ((28 <=? n) && (n <=? 32)).

Fixpoint lstrip (s : string) : string :=
  match s with
  | EmptyString => EmptyString
  | String c s' => if is_space c then lstrip s' else s
  end.

Fixpoint rstrip (s : string) : string :=
  match s with
  | EmptyString => EmptyString
  | String c s' =>
      match rstrip s' with
      | EmptyString => if is_space c then EmptyString else String c EmptyString
      | r => String c r
      end
  end.

(** [s.strip()] *)
Definition strip (s : string) : string := rstrip (lstrip s).

(** Truth value of a string: non-empty. *)
Definition truthy (s : string) : bool :=
  match s with EmptyString => false | String _ _ => true end.

(** [s.startswith(p)] *)
Fixpoint startswith (s p : string) {struct p} : bool :=
  match p, s with
  | EmptyString, _ => true
  | String _ _, EmptyString => false
  | String a p', String b s' => if ascii_dec a b then startswith s' p' else false
  end.

(** [s.endswith(suf)]: some tail of [s] is [suf]. *)
Fixpoint endswith (s suf : string) : bool :=
  if String.eqb s suf then true
  else match s with
       | EmptyString => false
       | String _ s' => endswith s' suf
       end.

(** [s.endswith((suf1, suf2, ...))] *)
Definition endswith_any (s : string) (sufs : list string) : bool :=
  existsb (endswith s) sufs.

(** [t in s] *)
Fixpoint str_in (t s : string) : bool :=
  if startswith s t then true
  else match s with
       | EmptyString => false
       | String _ s' => str_in t s'
       end.

Fixpoint chars (s : string) : list ascii :=
  match s with
  | EmptyString => []
  | String c s' => c :: chars s'
  end.

(** Specifications the boolean tests are checked against. *)
Definition is_prefix (p s : string) : Prop := ∃ b, s = p +:+ b.
Definition is_suffix (suf s : string) : Prop := ∃ a, s = a +:+ suf.
Definition is_substring (t s : string) : Prop := ∃ a b, s = a +:+ t +:+ b.
Definition blank (s : string) : Prop := Forall (λ c, is_space c = true) (chars s).
Definition lowercased (s : string) : Prop := Forall (λ c, is_upper c = false) (chars s).

End PyStr.

Import PyStr.

(** ** Effects: the log written by [logging], and Python exceptions *)

Inductive level := INFO | ERROR.

Definition Log := list (level * string).

(** A raised exception; [str(e)] is its message. *)
Inductive exn := Exception (msg : string).

Definition exn_str (e : exn) : string := match e with Exception msg => msg end.

Inductive outcome (A : Type) :=
| Ret (a : A)
| Raise (e : exn).
Arguments Ret {A} a.
Arguments Raise {A} e.

(** Computations that append to the log and may raise. *)
Definition M (A : Type) : Type := Log → outcome A * Log.

#[global] Instance M_ret : MRet M := λ A a lg, (Ret a, lg).

#[global] Instance M_bind : MBind M := λ A B f m lg,
  match m lg with
  | (Ret a, lg') => f a lg'
  | (Raise e, lg') => (Raise e, lg')
  end.

(** Calling a collaborator that returns or raises. *)
Definition call {A} (o : outcome A) : M A := λ lg, (o, lg).

(** [try: body except Exception as e: handler e] *)
Definition try_except {A} (body : M A) (handler : exn → M A) : M A := λ lg,
  match body lg with
  | (Ret a, lg') => (Ret a, lg')
  | (Raise e, lg') => handler e lg'
  end.

Definition logging_info (msg : string) : M unit := λ lg, (Ret tt, lg ++ [(INFO, msg)]).
Definition logging_error (msg : string) : M unit := λ lg, (Ret tt, lg ++ [(ERROR, msg)]).

(** The value a computation returns from a given log. *)
Definition result {A} (m : M A) (lg : Log) : outcome A := fst (m lg).
Definition log_after {A} (m : M A) (lg : Log) : Log := snd (m lg).

(** ** The values of the dictionary [filter_images_by_query] returns *)

(** [{"image_path": ..., "keywords": ...}] *)
Record image_entry := { image_path : string; keywords : list string }.

(** A value of the returned dictionary: the message under ["error"], or
    the entry of a matched image. *)
Inductive value :=
| VStr (s : string)
| VImage (e : image_entry).

(** ** The collaborators

    Everything the program calls outside this repository.  The file
    system and the OCR are read, never written, by the code below. *)

Class Collaborators := {
  (** [english_stop_words = set(stopwords.words('english'))] *)
  english_stop_words : gset string;
  (** [nltk.tokenize.word_tokenize] *)
  word_tokenize : string → list string;
  (** [PIL.Image.open] and [pytesseract.image_to_string]; both may raise. *)
  Image : Type;
  PILImage_open : string → outcome Image;
  image_to_string : Image → outcome string;
  (** The ranking of [rake_nltk]: the ranked phrases of a text, for a
      given stopword set. *)
  rake_rank : gset string → string → list string;
  (** [os.path.exists], [os.listdir] (raises on a path that cannot be
      listed) and [os.path.join]. *)
  os_path_exists : string → bool;
  os_listdir : string → outcome (list string);
  os_path_join : string → string → string
}.

(** What the development relies on about NLTK's tokenizer: it only cuts
    its input and rewrites double quotes to backquotes or apostrophes,
    and finds no token in a string of whitespace. *)
Class TokenizerContract (W : Collaborators) : Prop := {
  word_tokenize_chars : ∀ s token c,
    token ∈ word_tokenize s → c ∈ chars token →
    c ∈ chars s ∨ c = "`"%char ∨ c = "'"%char;
  word_tokenize_blank : ∀ s, blank s → word_tokenize s = []
}.

(** ** The program *)

Section Program.

Context `{W : Collaborators}.

(** The [Rake] object: built with its stopwords, it stores the ranked
    phrases of the last text it was given. *)
Record Rake := { rake_stopwords : gset string; ranked_phrases : list string }.

Definition Rake_init (stopwords : gset string) : Rake :=
  {| rake_stopwords := stopwords; ranked_phrases := [] |}.

Definition extract_keywords_from_text (rake : Rake) (text : string) : Rake :=
  {| rake_stopwords := rake_stopwords rake;
     ranked_phrases := rake_rank (rake_stopwords rake) text |}.

Definition get_ranked_phrases (rake : Rake) : list string := ranked_phrases rake.

Definition extract_text_from_image (path : string) : M string :=
  try_except
    (image ← call (PILImage_open path);
     text ← call (image_to_string image);
     logging_info ("Processed image: " +:+ path);;
     mret text)
    (λ e,
     logging_error ("Error processing image " +:+ path +:+ ": " +:+ exn_str e);;
     mret "").

Definition extract_keywords_from_image (path : string) : M (list string) :=
  text ← extract_text_from_image path;
  if truthy (strip text) then
    let rake := Rake_init english_stop_words in
    let rake := extract_keywords_from_text rake text in
    mret (get_ranked_phrases rake)
  else mret [].

Definition preprocess_query (query : string) : list string :=
  let tokens := word_tokenize (lower query) in
  filter (λ word, word ∉ english_stop_words) tokens.

(** [any(core_keyword in keyword.lower()
         for core_keyword in core_keywords for keyword in keywords)] *)
Definition any_match (core_keywords kws : list string) : bool :=
  existsb (λ core_keyword,
    existsb (λ keyword, str_in core_keyword (lower keyword)) kws) core_keywords.

Definition image_suffixes : list string := [".png"; ".jpg"; ".jpeg"].

(** The entry stored for a matched file. *)
Definition entry (image_file : string) (kws : list string) : value :=
  VImage {| image_path := "/images/" +:+ image_file; keywords := kws |}.

(** The [for image_file in os.listdir(image_dir)] loop, run over the
    listing [files] with [filtered_images] as built so far. *)
Fixpoint scan_images (core_keywords : list string) (image_dir : string)
    (files : list string) (filtered_images : gmap string value)
    : M (gmap string value) :=
  match files with
  | [] => mret filtered_images
  | image_file :: rest =>
      if endswith_any (lower image_file) image_suffixes then
        let path := os_path_join image_dir image_file in
        kws ← extract_keywords_from_image path;
        if any_match core_keywords kws then
          scan_images core_keywords image_dir rest
            (<[image_file := entry image_file kws]> filtered_images)
        else scan_images core_keywords image_dir rest filtered_images
      else scan_images core_keywords image_dir rest filtered_images
  end.

Definition filter_images_by_query (image_dir query : string)
    : M (gmap string value) :=
  let core_keywords := preprocess_query query in
  if negb (os_path_exists image_dir) then
    logging_error ("Image directory not found: " +:+ image_dir);;
    mret {["error" := VStr ("Image directory " +:+ image_dir +:+ " not found")]}
  else
    files ← call (os_listdir image_dir);
    scan_images core_keywords image_dir files ∅.

(** ** Log-free views, used to reason about the functions above *)

(** The text [extract_text_from_image] returns. *)
Definition image_text (path : string) : string :=
  match PILImage_open path with
  | Ret image =>
      match image_to_string image with
      | Ret text => text
      | Raise _ => ""
      end
  | Raise _ => ""
  end.

(** The phrases [extract_keywords_from_image] returns. *)
Definition image_keywords (path : string) : list string :=
  if truthy (strip (image_text path))
  then rake_rank english_stop_words (image_text path)
  else [].

(** The test that guards the insertion in the loop. *)
Definition selected (core_keywords : list string) (image_dir image_file : string) : bool :=
  endswith_any (lower image_file) image_suffixes
  && any_match core_keywords (image_keywords (os_path_join image_dir image_file)).

(** The dictionary the loop builds. *)
Definition scan_dict (core_keywords : list string) (image_dir : string)
    (files : list string) (filtered_images : gmap string value) : gmap string value :=
  foldl (λ acc image_file,
           if selected core_keywords image_dir image_file
           then <[image_file :=
                    entry image_file (image_keywords (os_path_join image_dir image_file))]> acc
           else acc)
        filtered_images files.

(** A query token is a case-insensitive substring of a phrase. *)
Definition ci_substring (token phrase : string) : Prop :=
  is_substring (lower token) (lower phrase).

End Program.

(** ** A small world to run the program in

    A whitespace tokenizer, a few stopwords, a directory of four files
    (one of them unreadable, one with no text) and a regular file, the
    script itself. *)

Module Fixture.

Definition stop_words : gset string :=
  list_to_set ["i"; "me"; "my"; "the"; "a"; "an"; "is"; "of"; "and"; "in"; "to"; "it"].

Definition flush (cur : string) : list string :=
  if truthy cur then [cur] else [].

Fixpoint split_go (cur s : string) : list string :=
  match s with
  | EmptyString => flush cur
  | String c s' =>
      if is_space c then flush cur ++ split_go "" s'
      else split_go (cur +:+ String c "") s'
  end.

Definition whitespace_tokenize (s : string) : list string := split_go "" s.

(** The readable pictures, with the text Tesseract finds on them. *)
Definition pictures : list (string * string) :=
  [("images/cat.png", "category theory");
   ("images/Dog.JPEG", "Dog walking");
   ("images/blank.jpg", "");
   ("images/notes.txt", "category theory")].

Definition listing : list string :=
  ["cat.png"; "Dog.JPEG"; "blank.jpg"; "broken.png"; "notes.txt"].

Definition open_picture (path : string) : outcome string :=
  match list_find (λ p, p.1 = path) pictures with
  | Some (_, (_, text)) => Ret text
  | None => Raise (Exception ("cannot identify image file " +:+ path))
  end.

Definition exists_path (path : string) : bool :=
  bool_decide (path ∈ ["images"; "empty"; "search_engine_api.py"]).

Definition list_directory (path : string) : outcome (list string) :=
  if String.eqb path "images" then Ret listing
  else if String.eqb path "empty" then Ret []
  else Raise (Exception ("[Errno 20] Not a directory: " +:+ path)).

(** Stands for RAKE on a text that is one phrase. *)
Definition one_phrase (stopwords : gset string) (text : string) : list string :=
  [lower (strip text)].

Definition world : Collaborators := {|
  english_stop_words := stop_words;
  word_tokenize := whitespace_tokenize;
  Image := string;
  PILImage_open := open_picture;
  image_to_string := Ret;
  rake_rank := one_phrase;
  os_path_exists := exists_path;
  os_listdir := list_directory;
  os_path_join := λ dir file, dir +:+ "/" +:+ file
|}.

End Fixture.

(** ** The files the loop reads *)

(** The test of the loop on a file name. *)
Definition is_image_file (image_file : string) : Prop :=
  endswith_any (lower image_file) image_suffixes = true.

(** The record [extract_text_from_image] writes for a path. *)
Definition image_record `{W : Collaborators} (path : string) : level * string :=
  match PILImage_open path with
  | Ret image =>
      match image_to_string image with
      | Ret _ => (INFO, "Processed image: " +:+ path)
      | Raise e => (ERROR, "Error processing image " +:+ path +:+ ": " +:+ exn_str e)
      end
  | Raise e => (ERROR, "Error processing image " +:+ path +:+ ": " +:+ exn_str e)
  end.

(** ** The order of the ranked phrases

    [rake_nltk] gathers the candidate phrases of the text, in order of
    appearance, as pairs (score, phrase), and ends with
    [rank_list.sort(reverse=True)]: the pairs are compared as Python
    tuples, first by score, then by the text of the phrase.  The scores
    are taken as rationals. *)

(** [a <= b] on pairs (score, phrase). *)
Definition rank_le (a b : Qcanon.Qc * string) : Prop :=
  Qcanon.Qclt a.1 b.1 ∨ (a.1 = b.1 ∧ String.le a.2 b.2).

(** The order [sort(reverse=True)] leaves the pairs in. *)
Definition rank_ge (a b : Qcanon.Qc * string) : Prop := rank_le b a.

#[global] Instance rank_ge_dec : RelDecision rank_ge.
Proof. intros a b. unfold rank_ge, rank_le. apply _. Defined.


(** ** A tokenizer that cuts contractions

    As NLTK's tokenizer does, it cuts [n't] off the end of a word:
    [won't] gives [wo] and [n't]. *)

Module ContractionFixture.

(** The part of [token] before a final [n't], if it ends so. *)
Fixpoint before_nt (token : string) : option string :=
  if String.eqb token "n't" then Some ""
  else match token with
       | EmptyString => None
       | String c rest => String c <$> before_nt rest
       end.

Definition cut_contraction (token : string) : list string :=
  match before_nt token with
  | Some (String c stem) => [String c stem; "n't"]
  | _ => [token]
  end.

Definition tokenize (s : string) : list string :=
  Fixture.whitespace_tokenize s ≫= cut_contraction.

Definition stop_words : gset string :=
  Fixture.stop_words ∪ list_to_set ["won"; "won't"; "don"; "don't"].

Definition open_picture (path : string) : outcome string :=
  if String.eqb path "maps/world.png" then Ret "World map"
  else Raise (Exception ("cannot identify image file " +:+ path)).

Definition world : Collaborators := {|
  english_stop_words := stop_words;
  word_tokenize := tokenize;
  Image := string;
  PILImage_open := open_picture;
  image_to_string := Ret;
  rake_rank := Fixture.one_phrase;
  os_path_exists := λ path, String.eqb path "maps";
  os_listdir := λ path,
    if String.eqb path "maps" then Ret ["world.png"]
    else Raise (Exception ("[Errno 20] Not a directory: " +:+ path));
  os_path_join := λ dir file, dir +:+ "/" +:+ file
|}.

End ContractionFixture.

(** ** A ranking of single words

    Stands for RAKE on a text of distinct single words between commas:
    each word is a candidate of score 1. *)

Module RankFixture.

Fixpoint words_go (cur s : string) : list string :=
  match s with
  | EmptyString => Fixture.flush cur
  | String c s' =>
      if is_space c || bool_decide (c = ","%char)
      then Fixture.flush cur ++ words_go "" s'
      else words_go (cur +:+ String c "") s'
  end.

Definition candidates (stopwords : gset string) (text : string)
    : list (Qcanon.Qc * string) :=
  (λ word, (1%Qc, word)) <$> words_go "" (lower text).

Definition rank (stopwords : gset string) (text : string) : list string :=
  (merge_sort rank_ge (candidates stopwords text)).*2.

Definition open_picture (path : string) : outcome string :=
  if String.eqb path "images/fruit.png" then Ret "apple, banana"
  else Raise (Exception ("cannot identify image file " +:+ path)).

Definition world : Collaborators := {|
  english_stop_words := Fixture.stop_words;
  word_tokenize := Fixture.whitespace_tokenize;
  Image := string;
  PILImage_open := open_picture;
  image_to_string := Ret;
  rake_rank := rank;
  os_path_exists := λ path, String.eqb path "images";
  os_listdir := λ path,
    if String.eqb path "images" then Ret ["fruit.png"]
    else Raise (Exception ("[Errno 20] Not a directory: " +:+ path));
  os_path_join := λ dir file, dir +:+ "/" +:+ file
|}.


End RankFixture.

(** ** Python values

    What the search services hand back: parsed JSON and the publication
    dictionaries of [scholarly].  A dictionary is the list of its items
    in insertion order, the keys distinct. *)

#[warnings="-register-all"] Inductive pyval :=
| PNone
| PBool (b : bool)
| PInt (n : Z)
| PStr (s : string)
| PList (l : list pyval)
| PDict (d : list (string * pyval)).

(** [bool(v)] *)
Definition py_truth (v : pyval) : bool :=
  match v with
  | PNone => false
  | PBool b => b
  | PInt n => negb (n =? 0)%Z
  | PStr s => truthy s
  | PList l => match l with [] => false | _ :: _ => true end
  | PDict d => match d with [] => false | _ :: _ => true end
  end.

(** The value stored under [key], if any. *)
Fixpoint dict_lookup (key : string) (d : list (string * pyval)) : option pyval :=
  match d with
  | [] => None
  | (k, v) :: d' => if String.eqb k key then Some v else dict_lookup key d'
  end.

(** What the interpreter answers where the text depends on the Python
    version or on the value: [str(v)] of a value that is not a string,
    and the exceptions raised by [v.attr], [v[key]] and [iter(v)] on a
    value that does not support them. *)
Class PyRuntime := {
  py_repr : pyval → string;
  no_attribute : pyval → string → exn;
  bad_subscript : pyval → string → exn;
  not_iterable : pyval → exn
}.

(** [KeyError(key)], for the keys the program writes: [str(e)] is the
    key between apostrophes. *)
Definition key_error (key : string) : exn := Exception ("'" +:+ key +:+ "'").

#[global] Instance outcome_ret : MRet outcome := λ A a, Ret a.

#[global] Instance outcome_bind : MBind outcome := λ A B f o,
  match o with
  | Ret a => f a
  | Raise e => Raise e
  end.

Section PyOps.

Context `{R : PyRuntime}.

(** [v.get(key, default)] *)
Definition py_get (v : pyval) (key : string) (default : pyval) : outcome pyval :=
  match v with
  | PDict d => Ret (from_option id default (dict_lookup key d))
  | _ => Raise (no_attribute v "get")
  end.

(** [v[key]] for a string [key] *)
Definition py_getitem (v : pyval) (key : string) : outcome pyval :=
  match v with
  | PDict d =>
      match dict_lookup key d with
      | Some x => Ret x
      | None => Raise (key_error key)
      end
  | _ => Raise (bad_subscript v key)
  end.

(** The values [for x in v] goes through. *)
Definition py_iter (v : pyval) : outcome (list pyval) :=
  match v with
  | PList l => Ret l
  | PDict d => Ret (map (λ kv, PStr kv.1) d)
  | PStr s => Ret (map (λ c, PStr (String c "")) (chars s))
  | _ => Raise (not_iterable v)
  end.

(** [f"{v}"] *)
Definition py_str (v : pyval) : string :=
  match v with
  | PStr s => s
  | _ => py_repr v
  end.

End PyOps.

(** ** The search services *)

(** The arguments of [youtube.search().list(...)]. *)
Record search_request := {
  req_part : string;
  req_q : string;
  req_type : string;
  req_videoDuration : string;
  req_maxResults : nat
}.

Class SearchServices := {
  (** [scholarly.search_pubs]: raises, or returns an iterator; each
      [next] on it yields a publication or raises, until it is
      exhausted. *)
  scholarly_search_pubs : string → outcome (list (outcome pyval));
  (** [build("youtube", "v3", developerKey=api_key)] *)
  YouTube : Type;
  build_youtube : string → outcome YouTube;
  (** [youtube.search().list(...).execute()] *)
  search_list_execute : YouTube → search_request → outcome pyval
}.

Section Searches.

Context `{W : Collaborators} `{R : PyRuntime} `{Sv : SearchServices}.

(** [next(search_query, None)] and what is left of the iterator. *)
Definition next_or_none (search_query : list (outcome pyval))
    : outcome (pyval * list (outcome pyval)) :=
  match search_query with
  | [] => Ret (PNone, [])
  | Ret paper :: rest => Ret (paper, rest)
  | Raise e :: _ => Raise e
  end.

(** The dictionary appended for one publication. *)
Definition paper_entry (paper : pyval) : outcome pyval :=
  bib ← py_get paper "bib" (PDict []);
  title ← py_get bib "title" (PStr "N/A");
  bib ← py_get paper "bib" (PDict []);
  authors ← py_get bib "author" (PStr "N/A");
  link ← py_get paper "pub_url" (PStr "N/A");
  mret (PDict [("title", title); ("authors", authors); ("link", link)]).

(** [for _ in range(n)]: the loop of [search_google_scholar]. *)
Fixpoint scholar_loop (n : nat) (search_query : list (outcome pyval))
    (papers : list pyval) : outcome (list pyval) :=
  match n with
  | 0 => Ret papers
  | S n' =>
      '(paper, rest) ← next_or_none search_query;
      if negb (py_truth paper) then Ret papers
      else
        entry ← paper_entry paper;
        scholar_loop n' rest (papers ++ [entry])
  end.

(** [except Exception as e]: log the error, return it in a dictionary. *)
Definition report_error (prefix : string) (e : exn) : M pyval :=
  logging_error (prefix +:+ exn_str e);;
  mret (PDict [("error", PStr (prefix +:+ exn_str e))]).

Definition search_google_scholar (query : string) : M pyval :=
  try_except
    (search_query ← call (scholarly_search_pubs query);
     papers ← call (scholar_loop 15 search_query []);
     mret (PList papers))
    (report_error "Error in Google Scholar search: ").

(** The dictionary appended for one item of the response. *)
Definition video_entry (item : pyval) : outcome pyval :=
  snippet ← py_getitem item "snippet";
  title ← py_getitem snippet "title";
  id ← py_getitem item "id";
  videoId ← py_getitem id "videoId";
  snippet ← py_getitem item "snippet";
  description ← py_getitem snippet "description";
  snippet ← py_getitem item "snippet";
  thumbnails ← py_getitem snippet "thumbnails";
  high ← py_getitem thumbnails "high";
  url ← py_getitem high "url";
  mret (PDict [("title", title);
               ("link", PStr ("https://www.youtube.com/watch?v=" +:+ py_str videoId));
               ("description", description);
               ("thumbnail", url)]).

(** [for item in ...: videos.append(...)] *)
Fixpoint videos_loop (items : list pyval) (videos : list pyval) : outcome (list pyval) :=
  match items with
  | [] => Ret videos
  | item :: rest =>
      entry ← video_entry item;
      videos_loop rest (videos ++ [entry])
  end.

Definition search_youtube (query api_key : string) : M pyval :=
  try_except
    (youtube ← call (build_youtube api_key);
     response ← call (search_list_execute youtube
                        {| req_part := "snippet"; req_q := query; req_type := "video";
                           req_videoDuration := "short"; req_maxResults := 5 |});
     items ← call (py_get response "items" (PList []));
     item_list ← call (py_iter items);
     videos ← call (videos_loop item_list []);
     mret (PList videos))
    (report_error "Error in YouTube search: ").

(** ** The route [/search] *)

(** The dictionary given to [jsonify]. *)
Inductive response_body :=
| ErrorBody (error : string)
| SearchBody (pdfs videos : pyval) (image_keywords : gmap string value).

(** The body and the status code; a response without a code has 200. *)
Record response := { body : response_body; status : nat }.

(** [request.args.get(key, default)] *)
Definition args_get (args : gmap string string) (key default : string) : string :=
  from_option id default (args !! key).

Definition process_query (args : gmap string string) : M response :=
  let query := args_get args "query" "" in
  let youtube_api_key := args_get args "youtube_api_key" "" in
  let image_dir := args_get args "image_dir" "images/" in
  if negb (truthy query) || negb (truthy youtube_api_key) then
    mret {| body := ErrorBody "Please provide both 'query' and 'youtube_api_key'";
            status := 400 |}
  else
    pdfs ← search_google_scholar query;
    videos ← search_youtube query youtube_api_key;
    image_keywords ← filter_images_by_query image_dir query;
    mret {| body := SearchBody pdfs videos image_keywords; status := 200 |}.

End Searches.

(** The shape of the dictionaries the searches append. *)
Definition is_paper_entry (entry : pyval) : Prop :=
  ∃ title authors link,
    entry = PDict [("title", title); ("authors", authors); ("link", link)].

Definition is_video_entry (entry : pyval) : Prop :=
  ∃ title video_id description thumbnail,
    entry = PDict [("title", title);
                   ("link", PStr ("https://www.youtube.com/watch?v=" +:+ video_id));
                   ("description", description);
                   ("thumbnail", thumbnail)].

(** What [report_error] returns and logs. *)
Definition reported (prefix : string) (e : exn) (lg : Log) : outcome pyval * Log :=
  (Ret (PDict [("error", PStr (prefix +:+ exn_str e))]),
   lg ++ [(ERROR, prefix +:+ exn_str e)]).

(** The request lacks a query or a key. *)
Definition bad_request (args : gmap string string) : Prop :=
  args_get args "query" "" = "" ∨ args_get args "youtube_api_key" "" = "".

(** The request [search_youtube] sends. *)
Definition short_videos (query : string) : search_request :=
  {| req_part := "snippet"; req_q := query; req_type := "video";
     req_videoDuration := "short"; req_maxResults := 5 |}.

(** ** Search services to run the route with

    Three publications, two videos, and the failures a search can meet:
    a service that cannot be reached, an iterator that breaks, an item
    without its fields. *)

Module ServiceFixture.

Definition runtime : PyRuntime := {|
  py_repr := λ _, "<value>";
  no_attribute := λ _ attr, Exception ("object has no attribute '" +:+ attr +:+ "'");
  bad_subscript := λ _ _, Exception "indices must be integers";
  not_iterable := λ _, Exception "object is not iterable"
|}.

Definition paper_full : pyval :=
  PDict [("bib", PDict [("title", PStr "Cats"); ("author", PList [PStr "A. Smith"])]);
         ("pub_url", PStr "http://example.org/cats")].

Definition paper_bare : pyval := PDict [("num_citations", PInt 3)].

Definition search_pubs (query : string) : outcome (list (outcome pyval)) :=
  if String.eqb query "cat" then Ret [Ret paper_full; Ret paper_bare]
  else if String.eqb query "dog" then Ret [Ret paper_full; Raise (Exception "timed out")]
  else if String.eqb query "many" then Ret (replicate 20 (Ret paper_bare))
  else Raise (Exception "network is unreachable").

Definition item (video_id title : string) : pyval :=
  PDict [("id", PDict [("kind", PStr "youtube#video"); ("videoId", PStr video_id)]);
         ("snippet",
          PDict [("title", PStr title);
                 ("description", PStr ("About " +:+ title));
                 ("thumbnails",
                  PDict [("high", PDict [("url", PStr ("http://img/" +:+ video_id))])])])].

Definition item_without_snippet : pyval :=
  PDict [("id", PDict [("videoId", PStr "xyz")])].

Definition build (api_key : string) : outcome string :=
  if String.eqb api_key "revoked" then Raise (Exception "API key not valid")
  else Ret api_key.

Definition execute (youtube : string) (request : search_request) : outcome pyval :=
  if String.eqb (req_q request) "cat"
  then Ret (PDict [("kind", PStr "youtube#searchListResponse");
                   ("items", PList [item "abc" "Cat video"; item "def" "More cats"])])
  else if String.eqb (req_q request) "dog"
  then Ret (PDict [("kind", PStr "youtube#searchListResponse")])
  else Ret (PDict [("items", PList [item "abc" "Cat video"; item_without_snippet])]).

Definition services : SearchServices := {|
  scholarly_search_pubs := search_pubs;
  YouTube := string;
  build_youtube := build;
  search_list_execute := execute
|}.

End ServiceFixture.

(** * Properties *)

(** ** The string operations meet their specifications *)

Section PyStr_facts.

Lemma app_nil_l s : "" +:+ s = s.
Proof. reflexivity. Qed.

Lemma app_cons c s1 s2 : String c s1 +:+ s2 = String c (s1 +:+ s2).
Proof. reflexivity. Qed.

Lemma startswith_spec s p : startswith s p = true ↔ is_prefix p s.
Proof.
  revert s; induction p as [|a p IH]; intros s; simpl.
  - split; [intros _; by exists s | done].
  - destruct s as [|b s].
    + split; [done | intros [x Hx]; rewrite app_cons in Hx; discriminate].
    + destruct (ascii_dec a b) as [->|Hne].
      * rewrite IH. split; intros [x Hx]; exists x.
        -- by rewrite app_cons, <- Hx.
        -- rewrite app_cons in Hx. by injection Hx.
      * split; [done | intros [x Hx]; rewrite app_cons in Hx; congruence].
Qed.

Lemma str_in_spec t s : str_in t s = true ↔ is_substring t s.
Proof.
  induction s as [|c s IH]; simpl.
  - destruct (startswith "" t) eqn:E.
    + split; [intros _ | done].
      apply startswith_spec in E as [b Hb]. exists "", b. by rewrite app_nil_l.
    + split; [done | intros (a & b & H)].
      destruct a; [|rewrite app_cons in H; discriminate].
      rewrite app_nil_l in H.
      assert (is_prefix t "") as Hp by (by exists b).
      apply startswith_spec in Hp. congruence.
  - destruct (startswith (String c s) t) eqn:E.
    + split; [intros _ | done].
      apply startswith_spec in E as [b Hb]. exists "", b. by rewrite app_nil_l.
    + rewrite IH. split; intros (a & b & H).
      * exists (String c a), b. by rewrite app_cons, <- H.
      * destruct a as [|c' a].
        -- rewrite app_nil_l in H.
           assert (is_prefix t (String c s)) as Hp by (by exists b).
           apply startswith_spec in Hp. congruence.
        -- rewrite app_cons in H. injection H as -> ->. by exists a, b.
Qed.

Lemma endswith_spec s suf : endswith s suf = true ↔ is_suffix suf s.
Proof.
  induction s as [|c s IH]; cbn [endswith].
  - destruct (String.eqb_spec "" suf) as [<-|Hne]; simpl.
    + split; [intros _; by exists "" | done].
    + split; [done | intros [a Ha]].
      destruct a; [by rewrite app_nil_l in Ha | rewrite app_cons in Ha; discriminate].
  - destruct (String.eqb_spec (String c s) suf) as [<-|Hne]; simpl.
    + split; [intros _; by exists "" | done].
    + rewrite IH. split; intros [a Ha].
      * exists (String c a). by rewrite app_cons, <- Ha.
      * destruct a as [|c' a]; [by rewrite app_nil_l in Ha|].
        rewrite app_cons in Ha. injection Ha as -> ->. by exists a.
Qed.

End PyStr_facts.

Section PyStr_case.

Lemma lower_char_not_upper c : is_upper (lower_char c) = false.
Proof. by destruct c as [[] [] [] [] [] [] [] []]. Qed.

Lemma lower_char_fixed c : is_upper c = false → lower_char c = c.
Proof. unfold lower_char. by intros ->. Qed.

Lemma lower_char_space c : is_space (lower_char c) = is_space c.
Proof. by destruct c as [[] [] [] [] [] [] [] []]. Qed.

Lemma lower_lowercased s : lowercased (lower s).
Proof.
  induction s as [|c s IH]; [constructor|].
  constructor; [apply lower_char_not_upper | exact IH].
Qed.

Lemma lowercased_lower s : lowercased s ↔ lower s = s.
Proof.
  split.
  - induction s as [|c s IH]; [done|].
    intros [Hc Hs]%Forall_cons. simpl. by rewrite lower_char_fixed, IH.
  - intros <-. apply lower_lowercased.
Qed.

Lemma lower_idemp s : lower (lower s) = lower s.
Proof. apply lowercased_lower, lower_lowercased. Qed.

Lemma lstrip_blank s : lstrip s = "" ↔ blank s.
Proof.
  induction s as [|c s IH]; simpl.
  - split; [constructor | done].
  - destruct (is_space c) eqn:E.
    + rewrite IH. split; [by constructor | by intros [_ ?]%Forall_cons].
    + split; [done | intros [? _]%Forall_cons; congruence].
Qed.

Lemma rstrip_blank s : rstrip s = "" ↔ blank s.
Proof.
  induction s as [|c s IH]; simpl.
  - split; [constructor | done].
  - destruct (rstrip s) eqn:Er.
    + destruct (is_space c) eqn:E.
      * split; [intros _; constructor; [done | by apply IH] | done].
      * split; [done | intros [? _]%Forall_cons; congruence].
    + split; [done | intros [_ Hs]%Forall_cons]. by apply IH in Hs.
Qed.

Lemma lstrip_suffix s : ∃ a, s = a +:+ lstrip s ∧ blank a.
Proof.
  induction s as [|c s (a & Ha & Hb)]; simpl.
  - exists "". by split; [|constructor].
  - destruct (is_space c) eqn:E.
    + exists (String c a). split; [by rewrite app_cons, <- Ha | by constructor].
    + exists "". by split; [|constructor].
Qed.

Lemma blank_app a b : blank (a +:+ b) ↔ blank a ∧ blank b.
Proof.
  unfold blank. induction a as [|c a IH].
  - rewrite app_nil_l. simpl. split; [by split; [constructor|] | by intros [_ ?]].
  - change (String c a +:+ b) with (String c (a +:+ b)). simpl.
    rewrite !Forall_cons, IH. tauto.
Qed.

(** [s.strip()] is empty exactly when [s] has whitespace only. *)
Lemma strip_blank s : strip s = "" ↔ blank s.
Proof.
  unfold strip. rewrite rstrip_blank.
  destruct (lstrip_suffix s) as (a & Ha & Hb).
  split; intros H.
  - rewrite Ha. apply blank_app. by split.
  - rewrite Ha in H. by apply blank_app in H as [_ ?].
Qed.

Lemma blank_lower s : blank (lower s) ↔ blank s.
Proof.
  unfold blank. induction s as [|c s IH]; simpl; [done|].
  by rewrite !Forall_cons, lower_char_space, IH.
Qed.

Lemma truthy_false s : truthy s = false ↔ s = "".
Proof. by destruct s. Qed.

Lemma str_in_empty t : str_in t "" = true → t = "".
Proof. simpl. by destruct t. Qed.

End PyStr_case.

(** ** What the effectful functions return *)

Section Runs.

Context `{W : Collaborators}.

Lemma extract_text_from_image_run path lg :
  ∃ lg', extract_text_from_image path lg = (Ret (image_text path), lg').
Proof.
  unfold extract_text_from_image, image_text, try_except, mbind, M_bind, call.
  destruct (PILImage_open path) as [image|e]; [|by eexists].
  destruct (image_to_string image) as [text|e]; by eexists.
Qed.

Lemma extract_keywords_from_image_run path lg :
  ∃ lg', extract_keywords_from_image path lg = (Ret (image_keywords path), lg').
Proof.
  destruct (extract_text_from_image_run path lg) as [lg' Ht].
  exists lg'. unfold extract_keywords_from_image, image_keywords, mbind, M_bind.
  rewrite Ht. by destruct (truthy (strip (image_text path))).
Qed.

Lemma scan_images_run core_keywords image_dir files acc lg :
  ∃ lg', scan_images core_keywords image_dir files acc lg
         = (Ret (scan_dict core_keywords image_dir files acc), lg').
Proof.
  revert acc lg. induction files as [|image_file rest IH]; intros acc lg.
  - by exists lg.
  - cbn [scan_images scan_dict foldl]. unfold selected.
    destruct (endswith_any (lower image_file) image_suffixes); [|apply IH].
    destruct (extract_keywords_from_image_run (os_path_join image_dir image_file) lg)
      as [lg1 Hk].
    unfold mbind, M_bind. rewrite Hk. cbn [andb].
    destruct (any_match core_keywords _); apply IH.
Qed.

Lemma filter_images_by_query_listed image_dir query files lg :
  os_path_exists image_dir = true → os_listdir image_dir = Ret files →
  ∃ lg', filter_images_by_query image_dir query lg
         = (Ret (scan_dict (preprocess_query query) image_dir files ∅), lg').
Proof.
  intros He Hl. unfold filter_images_by_query. rewrite He. cbn [negb].
  unfold mbind, M_bind, call. rewrite Hl. apply scan_images_run.
Qed.

Lemma filter_images_by_query_missing image_dir query lg :
  os_path_exists image_dir = false →
  result (filter_images_by_query image_dir query) lg
  = Ret {["error" := VStr ("Image directory " +:+ image_dir +:+ " not found")]}.
Proof.
  intros He. unfold result, filter_images_by_query. by rewrite He.
Qed.

Lemma filter_images_by_query_unlistable image_dir query e lg :
  os_path_exists image_dir = true → os_listdir image_dir = Raise e →
  filter_images_by_query image_dir query lg = (Raise e, lg).
Proof.
  intros He Hl. unfold filter_images_by_query. rewrite He. cbn [negb].
  unfold mbind, M_bind, call. by rewrite Hl.
Qed.

(** ** The dictionary built by the loop *)

Lemma scan_dict_cons core_keywords image_dir image_file rest acc :
  scan_dict core_keywords image_dir (image_file :: rest) acc
  = scan_dict core_keywords image_dir rest
      (if selected core_keywords image_dir image_file
       then <[image_file :=
                entry image_file (image_keywords (os_path_join image_dir image_file))]> acc
       else acc).
Proof. reflexivity. Qed.

Lemma scan_dict_app core_keywords image_dir l1 l2 acc :
  scan_dict core_keywords image_dir (l1 ++ l2) acc
  = scan_dict core_keywords image_dir l2 (scan_dict core_keywords image_dir l1 acc).
Proof. apply foldl_app. Qed.

Lemma scan_dict_lookup core_keywords image_dir files acc image_file :
  scan_dict core_keywords image_dir files acc !! image_file
  = if bool_decide (image_file ∈ files) && selected core_keywords image_dir image_file
    then Some (entry image_file (image_keywords (os_path_join image_dir image_file)))
    else acc !! image_file.
Proof.
  revert acc. induction files as [|g rest IH]; intros acc.
  - done.
  - rewrite scan_dict_cons, IH. clear IH.
    destruct (decide (image_file = g)) as [->|Hne].
    + rewrite (bool_decide_eq_true_2 (g ∈ g :: rest)) by left. cbn [andb].
      destruct (selected core_keywords image_dir g).
      * rewrite andb_true_r. rewrite lookup_insert_eq. by case_bool_decide.
      * by rewrite andb_false_r.
    + assert (bool_decide (image_file ∈ g :: rest) = bool_decide (image_file ∈ rest)) as ->.
      { apply bool_decide_ext. rewrite elem_of_cons. split; [by intros [?|?] | by right]. }
      destruct (bool_decide (image_file ∈ rest) && selected core_keywords image_dir image_file);
        [done|].
      destruct (selected core_keywords image_dir g); [by rewrite lookup_insert_ne|done].
Qed.

Lemma any_match_spec core_keywords kws :
  any_match core_keywords kws = true ↔
  ∃ token phrase, token ∈ core_keywords ∧ phrase ∈ kws ∧ is_substring token (lower phrase).
Proof.
  unfold any_match. rewrite existsb_exists. split.
  - intros (token & Ht & (phrase & Hp & Hin)%existsb_exists).
    exists token, phrase. rewrite <- !list_elem_of_In in *. by rewrite <- str_in_spec.
  - intros (token & phrase & Ht & Hp & Hin). exists token.
    rewrite existsb_exists. rewrite <- list_elem_of_In in *. split; [done|].
    exists phrase. by rewrite <- list_elem_of_In, str_in_spec.
Qed.

Lemma any_match_nil_l kws : any_match [] kws = false.
Proof. reflexivity. Qed.

Lemma any_match_nil_r core_keywords : any_match core_keywords [] = false.
Proof. unfold any_match. by induction core_keywords. Qed.

End Runs.

(** ** The query tokens *)

Section Tokens.

Context `{W : Collaborators}.

Lemma preprocess_query_elem query token :
  token ∈ preprocess_query query ↔
  (token ∉ english_stop_words) ∧ (token ∈ word_tokenize (lower query)).
Proof.
  unfold preprocess_query.
  apply (list_elem_of_filter (λ word, word ∉ english_stop_words)).
Qed.

Lemma chars_lower_not_upper s c : c ∈ chars (lower s) → is_upper c = false.
Proof.
  intros Hc. pose proof (lower_lowercased s) as Hl.
  unfold lowercased in Hl. rewrite Forall_forall in Hl. by apply Hl.
Qed.

Lemma tokens_lowercased `{!TokenizerContract W} query token :
  token ∈ word_tokenize (lower query) → lowercased token.
Proof.
  intros Ht. apply Forall_forall. intros c Hc.
  destruct (word_tokenize_chars _ _ _ Ht Hc) as [Hin|[->| ->]]; [|done..].
  by apply chars_lower_not_upper in Hin.
Qed.

Lemma preprocess_query_token_lower `{!TokenizerContract W} query token :
  token ∈ preprocess_query query → lower token = token.
Proof.
  intros [_ Ht]%preprocess_query_elem.
  by apply lowercased_lower, (tokens_lowercased query).
Qed.


Lemma preprocess_query_blank `{!TokenizerContract W} query :
  blank query → preprocess_query query = [].
Proof.
  intros Hb. unfold preprocess_query.
  by rewrite word_tokenize_blank by (by apply blank_lower).
Qed.

Lemma any_match_remove_dups core_keywords kws :
  any_match (remove_dups core_keywords) kws = any_match core_keywords kws.
Proof.
  apply eq_true_iff_eq. rewrite !any_match_spec.
  by setoid_rewrite elem_of_remove_dups.
Qed.

End Tokens.

(** ** What the loop writes to the log *)

Section Logs.

Context `{W : Collaborators}.

Lemma extract_text_from_image_exact path lg :
  extract_text_from_image path lg = (Ret (image_text path), lg ++ [image_record path]).
Proof.
  unfold extract_text_from_image, image_text, image_record, try_except, mbind, M_bind, call.
  destruct (PILImage_open path) as [image|e]; [|done].
  by destruct (image_to_string image) as [text|e].
Qed.

Lemma extract_keywords_from_image_exact path lg :
  extract_keywords_from_image path lg
  = (Ret (image_keywords path), lg ++ [image_record path]).
Proof.
  unfold extract_keywords_from_image, image_keywords, mbind, M_bind.
  rewrite extract_text_from_image_exact.
  by destruct (truthy (strip (image_text path))).
Qed.

Lemma scan_images_exact core_keywords image_dir files acc lg :
  scan_images core_keywords image_dir files acc lg
  = (Ret (scan_dict core_keywords image_dir files acc),
     lg ++ ((λ image_file, image_record (os_path_join image_dir image_file))
              <$> filter is_image_file files)).
Proof.
  revert acc lg. induction files as [|image_file rest IH]; intros acc lg.
  - simpl. by rewrite app_nil_r.
  - cbn [scan_images]. rewrite scan_dict_cons, filter_cons. unfold selected, is_image_file.
    destruct (endswith_any (lower image_file) image_suffixes) eqn:Hs; cbn [andb].
    + unfold mbind, M_bind. rewrite extract_keywords_from_image_exact.
      rewrite decide_True by done. rewrite fmap_cons.
      destruct (any_match core_keywords _); rewrite IH; by rewrite <- app_assoc.
    + rewrite decide_False by done. apply IH.
Qed.

Lemma image_record_cases path :
  image_record path = (INFO, "Processed image: " +:+ path)
  ∨ ∃ e, image_record path
         = (ERROR, "Error processing image " +:+ path +:+ ": " +:+ exn_str e).
Proof.
  unfold image_record.
  destruct (PILImage_open path) as [image|e]; [|right; by exists e].
  destruct (image_to_string image) as [text|e]; [by left | right; by exists e].
Qed.

Lemma extract_text_from_image_log path lg :
  log_after (extract_text_from_image path) lg = lg ++ [image_record path].
Proof. unfold log_after. by rewrite extract_text_from_image_exact. Qed.

End Logs.

(** ** The order of the ranking *)

Section Rank_order.

Lemma rank_le_total a b : rank_le a b ∨ rank_le b a.
Proof.
  unfold rank_le. destruct (Qcanon.Qclt_le_dec a.1 b.1) as [?|Hle]; [by left; left|].
  apply Qcanon.Qcle_lt_or_eq in Hle as [?|Heq]; [by right; left|].
  destruct (total String.le a.2 b.2); [left|right]; right; by split.
Qed.

Lemma rank_le_trans a b c : rank_le a b → rank_le b c → rank_le a c.
Proof.
  unfold rank_le. intros [Hab|[Hab Hs1]] [Hbc|[Hbc Hs2]].
  - left. by eapply Qcanon.Qclt_trans.
  - left. by rewrite <- Hbc.
  - left. by rewrite Hab.
  - right. split; [congruence|]. by etrans.
Qed.

#[global] Instance rank_ge_total : Total rank_ge.
Proof. intros a b. unfold rank_ge. apply rank_le_total. Qed.

#[global] Instance rank_ge_trans : Transitive rank_ge.
Proof. intros a b c ? ?. unfold rank_ge in *. by eapply rank_le_trans. Qed.

End Rank_order.

(** ** The claims *)

Section Claims.

Context `{W : Collaborators}.

(** C5: every token that [preprocess_query] returns is lower-cased and is
    not in the stopword set. *)
Theorem preprocess_query_lower_nonstop {HT : TokenizerContract W} query token :
  token ∈ preprocess_query query →
  lower token = token ∧ lowercased token ∧ (token ∉ english_stop_words).
Proof.
  intros [Hns Ht]%preprocess_query_elem.
  pose proof (tokens_lowercased _ _ Ht) as Hl.
  split; [by apply lowercased_lower | done].
Qed.

(** C4 (amended): [preprocess_query] returns a list, not a set: the
    surviving tokens in tokenizer order, each as often as the tokenizer
    produced it; the match decision is that of the de-duplicated tokens. *)
Theorem preprocess_query_keeps_duplicates query :
  preprocess_query query `sublist_of` word_tokenize (lower query) ∧
  (∀ token, token ∉ english_stop_words →
     length (filter (λ t, t = token) (preprocess_query query))
     = length (filter (λ t, t = token) (word_tokenize (lower query)))) ∧
  (∀ kws, any_match (preprocess_query query) kws
          = any_match (remove_dups (preprocess_query query)) kws).
Proof.
  split; [apply sublist_filter|]. split.
  - intros token Hns. unfold preprocess_query.
    induction (word_tokenize (lower query)) as [|t l IH]; [done|].
    rewrite !filter_cons.
    destruct (decide (t ∉ english_stop_words)) as [Ht|Ht].
    + rewrite filter_cons. destruct (decide (t = token)); simpl; by rewrite IH.
    + destruct (decide (t = token)) as [->|]; [done|exact IH].
  - intros kws. by rewrite any_match_remove_dups.
Qed.


Lemma extract_keywords_blank_text_aux path lg text :
  result (extract_text_from_image path) lg = Ret text →
  blank text →
  result (extract_keywords_from_image path) lg = Ret [].
Proof.
  intros Ht Hb. unfold result in *.
  destruct (extract_text_from_image_run path lg) as [lg1 Ht1].
  destruct (extract_keywords_from_image_run path lg) as [lg2 Hk].
  rewrite Ht1 in Ht. rewrite Hk. simpl in *. simplify_eq.
  unfold image_keywords. apply strip_blank in Hb. by rewrite Hb.
Qed.

(** C6: when the text read from the image is empty or whitespace-only,
    [extract_keywords_from_image] returns the empty list and raises
    nothing; so it does on the empty text. *)
Theorem extract_keywords_blank_text path lg text :
  result (extract_text_from_image path) lg = Ret text →
  blank text →
  result (extract_keywords_from_image path) lg = Ret [].
Proof. apply extract_keywords_blank_text_aux. Qed.


(** C1: with the directory listed, an image file of the listing is a key
    of the returned dictionary if and only if some query token is a
    case-insensitive substring of one of the phrases extracted from it;
    so token [cat] matches a file with the phrase [category theory]. *)
Theorem filter_images_by_query_match_iff {HT : TokenizerContract W}
    image_dir query files lg :
  os_path_exists image_dir = true → os_listdir image_dir = Ret files →
  ∃ m, result (filter_images_by_query image_dir query) lg = Ret m ∧
    ∀ image_file,
      image_file ∈ files →
      endswith_any (lower image_file) image_suffixes = true →
      ∃ kws,
        (∀ lg', result (extract_keywords_from_image
                          (os_path_join image_dir image_file)) lg' = Ret kws) ∧
        (is_Some (m !! image_file) ↔
         ∃ token phrase, token ∈ preprocess_query query ∧ phrase ∈ kws ∧
                         ci_substring token phrase) ∧
        ("cat" ∈ preprocess_query query → "category theory" ∈ kws →
         is_Some (m !! image_file)).
Proof.
  intros He Hl.
  destruct (filter_images_by_query_listed image_dir query files lg He Hl) as [lg1 Hr].
  eexists. split; [unfold result; by rewrite Hr|].
  intros image_file Hin Himg.
  exists (image_keywords (os_path_join image_dir image_file)).
  assert (is_Some (scan_dict (preprocess_query query) image_dir files ∅ !! image_file) ↔
          ∃ token phrase, token ∈ preprocess_query query ∧
            phrase ∈ image_keywords (os_path_join image_dir image_file) ∧
            ci_substring token phrase) as Hiff.
  { rewrite scan_dict_lookup, bool_decide_eq_true_2 by done.
    unfold selected. rewrite Himg. cbn [andb]. rewrite lookup_empty.
    transitivity (any_match (preprocess_query query)
                    (image_keywords (os_path_join image_dir image_file)) = true).
    { destruct (any_match _ _); [split; [done | by eexists] | split; [by intros [? ?] | done]]. }
    rewrite any_match_spec. unfold ci_substring.
    split; intros (token & phrase & Ht & Hp & Hs); exists token, phrase;
      (split; [done|]; split; [done|]);
      pose proof (preprocess_query_token_lower _ _ Ht); congruence. }
  split; [|split; [exact Hiff|]].
  - intros lg'. unfold result.
    by destruct (extract_keywords_from_image_run (os_path_join image_dir image_file) lg')
      as [? ->].
  - intros Hcat Hphrase. apply Hiff. exists "cat", "category theory".
    split; [done|]. split; [done|]. unfold ci_substring. by apply str_in_spec.
Qed.

(** C9: with the directory listed, every key of the returned dictionary
    is a file of the listing whose lower-cased name ends in [.png],
    [.jpg] or [.jpeg]; a file with another extension is never a key. *)
Theorem filter_images_by_query_keys image_dir query files lg :
  os_path_exists image_dir = true → os_listdir image_dir = Ret files →
  ∃ m, result (filter_images_by_query image_dir query) lg = Ret m ∧
    (∀ key, is_Some (m !! key) →
       key ∈ files ∧
       (is_suffix ".png" (lower key) ∨ is_suffix ".jpg" (lower key)
        ∨ is_suffix ".jpeg" (lower key))) ∧
    (∀ image_file,
       ¬ is_suffix ".png" (lower image_file) →
       ¬ is_suffix ".jpg" (lower image_file) →
       ¬ is_suffix ".jpeg" (lower image_file) →
       m !! image_file = None).
Proof.
  intros He Hl.
  destruct (filter_images_by_query_listed image_dir query files lg He Hl) as [lg1 Hr].
  eexists. split; [unfold result; by rewrite Hr|].
  assert (∀ key, is_Some (scan_dict (preprocess_query query) image_dir files ∅ !! key) →
            key ∈ files ∧
            (is_suffix ".png" (lower key) ∨ is_suffix ".jpg" (lower key)
             ∨ is_suffix ".jpeg" (lower key))) as Hkeys.
  { intros key. rewrite scan_dict_lookup, lookup_empty. unfold selected.
    case_bool_decide as Hin; cbn [andb]; [|by intros [? ?]].
    destruct (endswith_any (lower key) image_suffixes) eqn:Hs; cbn [andb];
      [|by intros [? ?]].
    intros _. split; [done|].
    unfold endswith_any, image_suffixes in Hs. cbn [existsb] in Hs.
    rewrite orb_false_r in Hs.
    apply orb_true_iff in Hs as [Hs|Hs]; [left; by apply endswith_spec|].
    apply orb_true_iff in Hs as [Hs|Hs]; [right; left|right; right];
      by apply endswith_spec. }
  split; [exact Hkeys|].
  intros image_file H1 H2 H3. apply eq_None_not_Some. intros Hs.
  apply Hkeys in Hs as [_ [?|[?|?]]]; tauto.
Qed.

(** C10: the entry stored under a file name holds ["/images/"] followed
    by that name as [image_path], and as [keywords] exactly the phrases
    [extract_keywords_from_image] returns for that file. *)
Theorem filter_images_by_query_entries image_dir query lg m image_file e :
  result (filter_images_by_query image_dir query) lg = Ret m →
  m !! image_file = Some (VImage e) →
  image_path e = "/images/" +:+ image_file ∧
  ∀ lg', result (extract_keywords_from_image (os_path_join image_dir image_file)) lg'
         = Ret (keywords e).
Proof.
  intros Hr Hm.
  destruct (os_path_exists image_dir) eqn:He.
  - destruct (os_listdir image_dir) as [files|ex] eqn:Hl.
    + destruct (filter_images_by_query_listed image_dir query files lg He Hl) as [lg1 Hr'].
      unfold result in Hr. rewrite Hr' in Hr. simpl in Hr. simplify_eq.
      rewrite scan_dict_lookup, lookup_empty in Hm.
      destruct (_ && _); [|done]. unfold entry in Hm. simplify_eq. simpl.
      split; [done|]. intros lg'. unfold result.
      by destruct (extract_keywords_from_image_run (os_path_join image_dir image_file) lg')
        as [? ->].
    + unfold result in Hr.
      by rewrite (filter_images_by_query_unlistable _ _ ex lg He Hl) in Hr.
  - rewrite filter_images_by_query_missing in Hr by done. simplify_eq.
    by apply lookup_singleton_Some in Hm as [_ ?].
Qed.

(** C2 (amended): for every listed directory the returned dictionary
    holds the matched files only: a key is a file one of whose phrases
    matched.  An image of the listing whose text is empty or
    whitespace-only is still visited (its record is among those the
    call writes), it yields the empty keyword list, gets no entry, and
    the call returns the dictionary it returns for the listing without
    that file. *)
Theorem filter_images_by_query_matched_only image_dir query files lg :
  os_path_exists image_dir = true → os_listdir image_dir = Ret files →
  ∃ m records,
    filter_images_by_query image_dir query lg = (Ret m, lg ++ records) ∧
    (∀ key, is_Some (m !! key) →
       ∃ kws,
         (∀ lg', result (extract_keywords_from_image (os_path_join image_dir key)) lg'
                 = Ret kws) ∧
         any_match (preprocess_query query) kws = true) ∧
    (∀ image_file text lg0,
       image_file ∈ files → is_image_file image_file →
       result (extract_text_from_image (os_path_join image_dir image_file)) lg0 = Ret text →
       blank text →
       (∃ record,
          log_after (extract_text_from_image (os_path_join image_dir image_file)) lg0
          = lg0 ++ [record] ∧ record ∈ records) ∧
       (∀ lg', result (extract_keywords_from_image (os_path_join image_dir image_file)) lg'
               = Ret []) ∧
       m !! image_file = None ∧
       (∀ l1 l2 lg',
          files = l1 ++ image_file :: l2 →
          result (scan_images (preprocess_query query) image_dir (l1 ++ l2) ∅) lg'
          = Ret m)).
Proof.
  intros He Hl.
  exists (scan_dict (preprocess_query query) image_dir files ∅),
    ((λ image_file, image_record (os_path_join image_dir image_file))
       <$> filter is_image_file files).
  split; [|split].
  - unfold filter_images_by_query. rewrite He. cbn [negb].
    unfold mbind, M_bind, call. rewrite Hl. apply scan_images_exact.
  - intros key. rewrite scan_dict_lookup, lookup_empty.
    destruct (bool_decide _); cbn [andb]; [|by intros [? ?]].
    destruct (selected _ _ key) eqn:Hs; [|by intros [? ?]]. intros _.
    exists (image_keywords (os_path_join image_dir key)). split.
    + intros lg'. unfold result. by rewrite extract_keywords_from_image_exact.
    + unfold selected in Hs. by apply andb_true_iff in Hs as [_ ?].
  - intros image_file text lg0 Hin Himg Ht Hb.
    assert (image_keywords (os_path_join image_dir image_file) = []) as Hnil.
    { pose proof (extract_keywords_blank_text_aux _ _ _ Ht Hb) as Hk.
      unfold result in Hk. rewrite extract_keywords_from_image_exact in Hk.
      by simplify_eq/=. }
    assert (selected (preprocess_query query) image_dir image_file = false) as Hsel.
    { unfold selected. by rewrite Hnil, any_match_nil_r, andb_false_r. }
    split; [|split; [|split]].
    + exists (image_record (os_path_join image_dir image_file)).
      split; [apply extract_text_from_image_log|].
      apply (list_elem_of_fmap_2
               (λ image_file, image_record (os_path_join image_dir image_file))).
      by apply list_elem_of_filter.
    + intros lg'. unfold result. by rewrite extract_keywords_from_image_exact, Hnil.
    + by rewrite scan_dict_lookup, Hsel, andb_false_r, lookup_empty.
    + intros l1 l2 lg' ->. unfold result. rewrite scan_images_exact. simpl. f_equal.
      by rewrite !scan_dict_app, scan_dict_cons, Hsel.
Qed.

End Claims.

(** ** Runs in the small world *)

Section Fixture_facts.

Import Fixture.

Lemma chars_app a b : chars (a +:+ b) = chars a ++ chars b.
Proof.
  induction a as [|c a IH]; [done|].
  change (String c a +:+ b) with (String c (a +:+ b)). simpl. by rewrite IH.
Qed.

Lemma flush_elem cur token : token ∈ flush cur → token = cur.
Proof.
  unfold flush. destruct (truthy cur); [|by intros ?%elem_of_nil].
  by intros ->%list_elem_of_singleton.
Qed.

Lemma split_go_chars cur s token c :
  token ∈ split_go cur s → c ∈ chars token → c ∈ chars cur ∨ c ∈ chars s.
Proof.
  revert cur. induction s as [|ch s IH]; intros cur Ht Hc; simpl in *.
  - apply flush_elem in Ht as ->. by left.
  - destruct (is_space ch).
    + apply elem_of_app in Ht as [->%flush_elem|Ht]; [by left|].
      destruct (IH _ Ht Hc) as [[]%elem_of_nil|?]. right. by right.
    + destruct (IH _ Ht Hc) as [Hin|?]; [|right; by right].
      rewrite chars_app in Hin. apply elem_of_app in Hin as [?|Hin]; [by left|].
      apply list_elem_of_singleton in Hin as ->. right. by left.
Qed.

Lemma split_go_blank s : blank s → split_go "" s = [].
Proof.
  induction s as [|ch s IH]; [done|].
  intros [Hc Hs]%Forall_cons. simpl. rewrite Hc. by rewrite IH.
Qed.

Lemma world_tokenizer : TokenizerContract world.
Proof.
  split.
  - intros s token c Ht Hc. left.
    by destruct (split_go_chars "" s token c Ht Hc) as [[]%elem_of_nil|?].
  - apply split_go_blank.
Qed.

(** C1, witness: the query [the Cat] over the directory [images]. *)
Lemma filter_images_by_query_match_iff_witness :
  os_path_exists (Collaborators := world) "images" = true ∧
  os_listdir (Collaborators := world) "images" = Ret listing ∧
  ∃ m, result (filter_images_by_query (W := world) "images" "the Cat") [] = Ret m ∧
    ∀ image_file,
      image_file ∈ listing →
      endswith_any (lower image_file) image_suffixes = true →
      ∃ kws,
        (∀ lg', result (extract_keywords_from_image (W := world)
                          (os_path_join (Collaborators := world) "images" image_file)) lg'
                = Ret kws) ∧
        (is_Some (m !! image_file) ↔
         ∃ token phrase, token ∈ preprocess_query (W := world) "the Cat" ∧
                         phrase ∈ kws ∧ ci_substring token phrase) ∧
        ("cat" ∈ preprocess_query (W := world) "the Cat" → "category theory" ∈ kws →
         is_Some (m !! image_file)).
Proof.
  split; [reflexivity|]. split; [reflexivity|].
  apply (filter_images_by_query_match_iff (W := world) (HT := world_tokenizer)
           "images" "the Cat" listing []); reflexivity.
Defined.

(** C2, counterexample: [blank.jpg] and [Dog.JPEG] are images of the
    listing, yet the dictionary returned for the query [cat] has the one
    entry of [cat.png]. *)
Lemma filter_images_by_query_not_full_map :
  os_path_exists (Collaborators := world) "images" = true ∧
  os_listdir (Collaborators := world) "images" = Ret listing ∧
  "blank.jpg" ∈ listing ∧
  endswith_any (lower "blank.jpg") image_suffixes = true ∧
  result (extract_text_from_image (W := world) "images/blank.jpg") [] = Ret "" ∧
  ∃ m, result (filter_images_by_query (W := world) "images" "cat") [] = Ret m ∧
       m = {["cat.png" := entry "cat.png" ["category theory"]]} ∧
       m !! "blank.jpg" = None ∧ m !! "Dog.JPEG" = None.
Proof.
  split; [reflexivity|]. split; [reflexivity|]. split; [compute_done|].
  split; [reflexivity|]. split; [reflexivity|].
  eexists. split; [vm_compute; reflexivity|]. by vm_compute.
Qed.

(** C2, witness: [blank.jpg] in the directory [images]. *)
Lemma filter_images_by_query_matched_only_witness :
  os_path_exists (Collaborators := world) "images" = true ∧
  os_listdir (Collaborators := world) "images" = Ret listing ∧
  "blank.jpg" ∈ listing ∧ is_image_file "blank.jpg" ∧
  result (extract_text_from_image (W := world) "images/blank.jpg") [] = Ret "" ∧
  blank "" ∧
  ∃ m records,
    filter_images_by_query (W := world) "images" "cat" [] = (Ret m, [] ++ records) ∧
    (INFO, "Processed image: images/blank.jpg") ∈ records ∧
    m !! "blank.jpg" = None.
Proof.
  assert ("blank.jpg" ∈ listing) as Hin by compute_done.
  assert (is_image_file "blank.jpg") as Himg by reflexivity.
  assert (blank "") as Hb by constructor.
  split; [reflexivity|]. split; [reflexivity|]. split; [exact Hin|].
  split; [exact Himg|]. split; [reflexivity|]. split; [exact Hb|].
  destruct (filter_images_by_query_matched_only (W := world) "images" "cat" listing [])
    as (m & records & Hrun & _ & Hblank); [reflexivity | reflexivity |].
  destruct (Hblank "blank.jpg" "" [] Hin Himg eq_refl Hb)
    as ((record & Hrec & Hinr) & _ & Hm & _).
  exists m, records. split; [exact Hrun|]. split; [|exact Hm].
  injection Hrec as <-. exact Hinr.
Defined.


(** C4, counterexample: the query [cat cat] gives the token [cat] twice. *)
Lemma preprocess_query_duplicates :
  preprocess_query (W := world) "cat cat" = ["cat"; "cat"] ∧
  ¬ NoDup (preprocess_query (W := world) "cat cat").
Proof.
  split; [reflexivity|].
  change (preprocess_query (W := world) "cat cat") with ["cat"; "cat"].
  intros [Hnin _]%NoDup_cons. apply Hnin. by left.
Qed.

(** C4, witness: the query [cat cat]. *)
Lemma preprocess_query_keeps_duplicates_witness :
("cat" ∉ english_stop_words (Collaborators := world)) ∧
  length (filter (λ t, t = "cat") (preprocess_query (W := world) "cat cat")) = 2.
Proof.
  split; [compute_done|].
  destruct (preprocess_query_keeps_duplicates (W := world) "cat cat") as (_ & Hcount & _).
  rewrite Hcount by compute_done. reflexivity.
Defined.

(** C5, witness: the token [cat] of the query [The Cat]. *)
Lemma preprocess_query_lower_nonstop_witness :
  "cat" ∈ preprocess_query (W := world) "The Cat" ∧
  lower "cat" = "cat" ∧ lowercased "cat" ∧
  ("cat" ∉ english_stop_words (Collaborators := world)).
Proof.
  assert ("cat" ∈ preprocess_query (W := world) "The Cat") as Hin by compute_done.
  split; [exact Hin|].
  exact (preprocess_query_lower_nonstop (W := world) (HT := world_tokenizer) _ _ Hin).
Defined.

(** C6, witness: the picture [blank.jpg], on which no text is found. *)
Lemma extract_keywords_blank_text_witness :
  result (extract_text_from_image (W := world) "images/blank.jpg") [] = Ret "" ∧
  blank "" ∧
  result (extract_keywords_from_image (W := world) "images/blank.jpg") [] = Ret [].
Proof.
  split; [reflexivity|]. split; [constructor|].
  apply (extract_keywords_blank_text (W := world) "images/blank.jpg" [] "");
    [reflexivity | constructor].
Defined.

(** C7: listing a path that exists and is not a directory raises, and
    [filter_images_by_query] lets the exception through. *)
Theorem filter_images_by_query_raises_on_regular_file :
  os_path_exists (Collaborators := world) "search_engine_api.py" = true ∧
  filter_images_by_query (W := world) "search_engine_api.py" "cat" []
  = (Raise (Exception "[Errno 20] Not a directory: search_engine_api.py"), []).
Proof. split; reflexivity. Qed.

(** C9, witness: the directory [images] and the query [category]. *)
Lemma filter_images_by_query_keys_witness :
  os_path_exists (Collaborators := world) "images" = true ∧
  os_listdir (Collaborators := world) "images" = Ret listing ∧
  ∃ m, result (filter_images_by_query (W := world) "images" "category") [] = Ret m ∧
       m !! "notes.txt" = None.
Proof.
  split; [reflexivity|]. split; [reflexivity|].
  destruct (filter_images_by_query_keys (W := world) "images" "category" listing [])
    as (m & Hr & _ & Hother); [reflexivity | reflexivity |].
  exists m. split; [exact Hr|].
  apply Hother; rewrite <- endswith_spec; by vm_compute.
Defined.

(** C10, witness: the entry of [cat.png] for the query [cat]. *)
Lemma filter_images_by_query_entries_witness :
  let e := {| image_path := "/images/cat.png"; keywords := ["category theory"] |} in
  result (filter_images_by_query (W := world) "images" "cat") []
  = Ret {["cat.png" := VImage e]} ∧
  ({["cat.png" := VImage e]} : gmap string value) !! "cat.png" = Some (VImage e) ∧
  image_path e = "/images/" +:+ "cat.png" ∧
  ∀ lg', result (extract_keywords_from_image (W := world)
                   (os_path_join (Collaborators := world) "images" "cat.png")) lg'
         = Ret (keywords e).
Proof.
  intros e.
  assert (result (filter_images_by_query (W := world) "images" "cat") []
          = Ret {["cat.png" := VImage e]}) as Hr by (vm_compute; reflexivity).
  assert (({["cat.png" := VImage e]} : gmap string value) !! "cat.png" = Some (VImage e))
    as Hm by (vm_compute; reflexivity).
  split; [exact Hr|]. split; [exact Hm|].
  exact (filter_images_by_query_entries (W := world) _ _ _ _ _ _ Hr Hm).
Defined.

End Fixture_facts.

(** ** Runs with contractions and with tied scores *)

Section Contraction_facts.

Import ContractionFixture.

Lemma before_nt_spec token stem : before_nt token = Some stem → token = stem +:+ "n't".
Proof.
  revert stem. induction token as [|c rest IH]; intros stem; cbn [before_nt].
  - destruct (String.eqb_spec "" "n't"); [done|]. done.
  - destruct (String.eqb_spec (String c rest) "n't") as [->|_].
    + by intros [= <-].
    + destruct (before_nt rest) as [stem'|]; [|done].
      intros [= <-]. by rewrite (IH stem' eq_refl).
Qed.

Lemma cut_contraction_chars token piece c :
  piece ∈ cut_contraction token → c ∈ chars piece → c ∈ chars token.
Proof.
  unfold cut_contraction. destruct (before_nt token) as [[|c0 stem]|] eqn:Hb;
    try by intros ->%list_elem_of_singleton.
  apply before_nt_spec in Hb as ->. rewrite chars_app, elem_of_app.
  intros [->|[->|[]%elem_of_nil]%elem_of_cons]%elem_of_cons Hc; [by left | by right].
Qed.

Lemma contraction_tokenizer : TokenizerContract world.
Proof.
  split.
  - intros s token c Ht Hc. left.
    apply list_elem_of_bind in Ht as (word & Hpiece & Hword).
    pose proof (cut_contraction_chars _ _ _ Hpiece Hc) as Hcw.
    by destruct (split_go_chars "" s word c Hword Hcw) as [[]%elem_of_nil|?].
  - intros s Hb. cbn. unfold tokenize, Fixture.whitespace_tokenize.
    by rewrite split_go_blank.
Qed.


End Contraction_facts.

Section Rank_facts.

Import RankFixture.



End Rank_facts.

(** ** Further properties of the image filter *)

Section Image_filter.

Context `{W : Collaborators}.

Lemma any_match_subseteq core1 core2 kws :
  core1 ⊆ core2 → any_match core1 kws = true → any_match core2 kws = true.
Proof.
  intros Hsub. rewrite !any_match_spec.
  intros (token & phrase & Ht & Hp & Hs). exists token, phrase. split; [by apply Hsub|done].
Qed.

Lemma scan_dict_size core_keywords image_dir files acc :
  size (scan_dict core_keywords image_dir files acc)
  ≤ size acc + length (filter is_image_file files).
Proof.
  revert acc. induction files as [|image_file rest IH]; intros acc; [simpl; lia|].
  rewrite scan_dict_cons, filter_cons. etrans; [apply IH|].
  unfold selected, is_image_file.
  destruct (endswith_any (lower image_file) image_suffixes); cbn [andb].
  - rewrite decide_True by done.
    destruct (any_match _ _); [|simpl; lia].
    rewrite map_size_insert. destruct (acc !! image_file); simpl; lia.
  - by rewrite decide_False.
Qed.

(** X1: when opening the picture or reading its text raises,
    [extract_text_from_image] does not raise: it returns the empty text
    and logs one error naming the path and the exception;
    [extract_keywords_from_image] then returns no phrase. *)
Theorem extract_text_from_image_failure path lg e :
  PILImage_open path = Raise e
  ∨ (∃ image, PILImage_open path = Ret image ∧ image_to_string image = Raise e) →
  extract_text_from_image path lg
  = (Ret "", lg ++ [(ERROR, "Error processing image " +:+ path +:+ ": " +:+ exn_str e)])
  ∧ result (extract_keywords_from_image path) lg = Ret [].
Proof.
  intros Hfail.
  assert (extract_text_from_image path lg
          = (Ret "", lg ++ [(ERROR, "Error processing image " +:+ path +:+ ": "
                                    +:+ exn_str e)])) as Ht.
  { unfold extract_text_from_image, try_except, mbind, M_bind, call.
    destruct Hfail as [->|(image & -> & ->)]; reflexivity. }
  split; [exact Ht|].
  unfold result, extract_keywords_from_image, mbind, M_bind. by rewrite Ht.
Qed.

(** X2: on a listed directory the call only appends to the log, and
    what it appends is, in the order of the listing, one record for each
    file with an image extension and none for the other files: the
    record [extract_text_from_image] writes for the path of that file,
    which names that path.  So it is whatever the query. *)
Theorem filter_images_by_query_log image_dir query files lg :
  os_path_exists image_dir = true → os_listdir image_dir = Ret files →
  ∃ records,
    log_after (filter_images_by_query image_dir query) lg = lg ++ records ∧
    Forall2
      (λ image_file record,
         log_after (extract_text_from_image (os_path_join image_dir image_file)) []
         = [record] ∧
         (record = (INFO, "Processed image: " +:+ os_path_join image_dir image_file)
          ∨ ∃ e, record = (ERROR, "Error processing image "
                                  +:+ os_path_join image_dir image_file
                                  +:+ ": " +:+ exn_str e)))
      (filter is_image_file files) records.
Proof.
  intros He Hl.
  exists ((λ image_file, image_record (os_path_join image_dir image_file))
            <$> filter is_image_file files).
  split.
  - unfold log_after, filter_images_by_query. rewrite He. cbn [negb].
    unfold mbind, M_bind, call. by rewrite Hl, scan_images_exact.
  - induction (filter is_image_file files) as [|image_file rest IH]; [constructor|].
    rewrite fmap_cons. constructor; [|exact IH].
    split; [by rewrite extract_text_from_image_log | apply image_record_cases].
Qed.

(** X3: the dictionary the loop builds depends on which files are
    listed, not on their order or repetition in the listing. *)
Theorem scan_images_order_irrelevant core_keywords image_dir files files' acc lg lg' :
  (∀ image_file, image_file ∈ files ↔ image_file ∈ files') →
  result (scan_images core_keywords image_dir files acc) lg
  = result (scan_images core_keywords image_dir files' acc) lg'.
Proof.
  intros Hsame. unfold result.
  destruct (scan_images_run core_keywords image_dir files acc lg) as [? ->].
  destruct (scan_images_run core_keywords image_dir files' acc lg') as [? ->].
  simpl. f_equal. apply map_eq. intros image_file.
  rewrite !scan_dict_lookup.
  by rewrite (bool_decide_ext _ _ (Hsame image_file)).
Qed.

(** X4: the returned dictionary has at most as many entries as the
    listing has files with an image extension. *)
Theorem filter_images_by_query_size image_dir query files lg :
  os_path_exists image_dir = true → os_listdir image_dir = Ret files →
  ∃ m, result (filter_images_by_query image_dir query) lg = Ret m ∧
       size m ≤ length (filter is_image_file files).
Proof.
  intros He Hl.
  destruct (filter_images_by_query_listed image_dir query files lg He Hl) as [lg1 Hr].
  eexists. split; [unfold result; by rewrite Hr|].
  etrans; [apply scan_dict_size|]. by rewrite map_size_empty.
Qed.

(** X5: the case of the query does not matter: the call on the
    lower-cased query returns the same dictionary and writes the same
    log. *)
Theorem filter_images_by_query_lower_query image_dir query lg :
  filter_images_by_query image_dir (lower query) lg
  = filter_images_by_query image_dir query lg.
Proof.
  unfold filter_images_by_query, preprocess_query. by rewrite lower_idemp.
Qed.

(** X6: an entry carries the evidence of its match: one of its keywords,
    lower-cased, contains a token of the query; so its keyword list and
    the token list of the query are not empty. *)
Theorem filter_images_by_query_entry_evidence image_dir query lg m image_file e :
  result (filter_images_by_query image_dir query) lg = Ret m →
  m !! image_file = Some (VImage e) →
  (∃ token phrase, token ∈ preprocess_query query ∧ phrase ∈ keywords e ∧
                   is_substring token (lower phrase)) ∧
  keywords e ≠ [] ∧ preprocess_query query ≠ [].
Proof.
  intros Hr Hm.
  assert (any_match (preprocess_query query) (keywords e) = true) as Hany.
  { destruct (os_path_exists image_dir) eqn:He.
    - destruct (os_listdir image_dir) as [files|ex] eqn:Hl.
      + destruct (filter_images_by_query_listed image_dir query files lg He Hl)
          as [lg1 Hr'].
        unfold result in Hr. rewrite Hr' in Hr. simpl in Hr. simplify_eq.
        rewrite scan_dict_lookup, lookup_empty in Hm. unfold selected in Hm.
        destruct (bool_decide _); cbn [andb] in Hm; [|done].
        destruct (endswith_any _ _); cbn [andb] in Hm; [|done].
        destruct (any_match _ _) eqn:Hany; [|done].
        unfold entry in Hm. by simplify_eq.
      + unfold result in Hr.
        by rewrite (filter_images_by_query_unlistable _ _ ex lg He Hl) in Hr.
    - rewrite filter_images_by_query_missing in Hr by done. simplify_eq.
      by apply lookup_singleton_Some in Hm as [_ ?]. }
  split; [by apply any_match_spec|]. split.
  - intros Hnil. by rewrite Hnil, any_match_nil_r in Hany.
  - intros Hnil. by rewrite Hnil in Hany.
Qed.

(** X7: whenever a dictionary is returned, it has the key ["error"]
    exactly when the directory does not exist; its value is then the
    message naming the directory. *)
Theorem filter_images_by_query_error_key image_dir query lg m :
  result (filter_images_by_query image_dir query) lg = Ret m →
  (is_Some (m !! "error") ↔ os_path_exists image_dir = false) ∧
  (os_path_exists image_dir = false →
   m = {["error" := VStr ("Image directory " +:+ image_dir +:+ " not found")]}).
Proof.
  intros Hr. destruct (os_path_exists image_dir) eqn:He.
  - split; [|done]. split; [|done]. intros Hs. exfalso.
    destruct (os_listdir image_dir) as [files|ex] eqn:Hl.
    + destruct (filter_images_by_query_listed image_dir query files lg He Hl)
        as [lg1 Hr'].
      unfold result in Hr. rewrite Hr' in Hr. simpl in Hr. simplify_eq.
      rewrite scan_dict_lookup, lookup_empty in Hs. unfold selected in Hs.
      assert (endswith_any (lower "error") image_suffixes = false) as Hne
        by by vm_compute.
      rewrite Hne, andb_false_l, andb_false_r in Hs. by destruct Hs.
    + unfold result in Hr.
      by rewrite (filter_images_by_query_unlistable _ _ ex lg He Hl) in Hr.
  - rewrite filter_images_by_query_missing in Hr by done. simplify_eq.
    split; [|done]. split; [done|]. intros _. rewrite lookup_singleton_eq. by eexists.
Qed.

(** X8: a query with more tokens finds more: if every token of one
    query is a token of another, each entry returned for the first is
    returned, unchanged, for the second. *)
Theorem filter_images_by_query_more_tokens image_dir query1 query2 files lg1 lg2 :
  os_path_exists image_dir = true → os_listdir image_dir = Ret files →
  preprocess_query query1 ⊆ preprocess_query query2 →
  ∃ m1 m2,
    result (filter_images_by_query image_dir query1) lg1 = Ret m1 ∧
    result (filter_images_by_query image_dir query2) lg2 = Ret m2 ∧
    m1 ⊆ m2.
Proof.
  intros He Hl Hsub.
  destruct (filter_images_by_query_listed image_dir query1 files lg1 He Hl) as [l1 Hr1].
  destruct (filter_images_by_query_listed image_dir query2 files lg2 He Hl) as [l2 Hr2].
  eexists _, _. unfold result. rewrite Hr1, Hr2. split; [done|]. split; [done|].
  apply map_subseteq_spec. intros image_file v.
  rewrite !scan_dict_lookup, !lookup_empty. unfold selected.
  destruct (bool_decide _); cbn [andb]; [|done].
  destruct (endswith_any _ _); cbn [andb]; [|done].
  destruct (any_match (preprocess_query query1) _) eqn:H1; [|done].
  by rewrite (any_match_subseteq _ _ _ Hsub H1).
Qed.

End Image_filter.

(** ** The two searches *)

Section Search_facts.

Context `{R : PyRuntime} `{Sv : SearchServices}.

Lemma py_get_dict d key default :
  py_get (PDict d) key default = Ret (from_option id default (dict_lookup key d)).
Proof. reflexivity. Qed.

Lemma paper_entry_shape paper entry :
  paper_entry paper = Ret entry → is_paper_entry entry.
Proof.
  unfold paper_entry, mbind, outcome_bind, mret, outcome_ret.
  destruct (py_get paper "bib" (PDict [])) as [bib|]; [|done].
  destruct (py_get bib "title" (PStr "N/A")) as [title|]; [|done].
  destruct (py_get bib "author" (PStr "N/A")) as [authors|]; [|done].
  destruct (py_get paper "pub_url" (PStr "N/A")) as [link|]; [|done].
  intros [= <-]. by exists title, authors, link.
Qed.

Lemma scholar_loop_bound n search_query papers out :
  scholar_loop n search_query papers = Ret out →
  Forall is_paper_entry papers →
  length out ≤ length papers + n ∧ Forall is_paper_entry out.
Proof.
  revert search_query papers. induction n as [|n IH]; intros search_query papers.
  - simpl. intros [= <-] ?. split; [lia|done].
  - cbn [scholar_loop]. unfold mbind, outcome_bind.
    destruct (next_or_none search_query) as [[paper rest]|]; [|done].
    destruct (py_truth paper); cbn [negb]; [|intros [= <-] ?; split; [lia|done]].
    destruct (paper_entry paper) as [entry|] eqn:He; [|done].
    intros Hloop Hall. apply IH in Hloop as [Hlen Hout].
    + rewrite length_app in Hlen. simpl in Hlen. split; [lia|done].
    + apply Forall_app. split; [done|]. constructor; [|done].
      by apply paper_entry_shape in He.
Qed.

Lemma search_google_scholar_run query lg :
  search_google_scholar query lg
  = match scholarly_search_pubs query with
    | Ret search_query =>
        match scholar_loop 15 search_query [] with
        | Ret papers => (Ret (PList papers), lg)
        | Raise e => reported "Error in Google Scholar search: " e lg
        end
    | Raise e => reported "Error in Google Scholar search: " e lg
    end.
Proof.
  unfold search_google_scholar, try_except, mbind, M_bind, call.
  destruct (scholarly_search_pubs query) as [search_query|e]; [|done].
  by destruct (scholar_loop 15 search_query []).
Qed.

Lemma scholar_loop_prefix n papers entries tail acc :
  Forall2 (λ paper entry, py_truth paper = true ∧ paper_entry paper = Ret entry)
          papers entries →
  length papers ≤ n →
  scholar_loop n (map Ret papers ++ tail) acc
  = scholar_loop (n - length papers) tail (acc ++ entries).
Proof.
  intros Hall. revert n acc.
  induction Hall as [|paper entry papers entries [Ht He] _ IH]; intros n acc Hn.
  - simpl. by rewrite Nat.sub_0_r, app_nil_r.
  - simpl in Hn. destruct n as [|n]; [lia|].
    cbn [scholar_loop map app next_or_none]. unfold mbind, outcome_bind.
    rewrite Ht, He. cbn [negb]. rewrite IH by lia.
    by rewrite <- app_assoc.
Qed.

(** X9: [search_google_scholar] never raises.  It returns either a list
    of at most 15 dictionaries, each with the keys [title], [authors]
    and [link], leaving the log as it was; or the dictionary
    [{"error": message}], after logging that same message as an error. *)
Theorem search_google_scholar_outcome query lg :
  (∃ papers,
     search_google_scholar query lg = (Ret (PList papers), lg) ∧
     length papers ≤ 15 ∧ Forall is_paper_entry papers)
  ∨ (∃ e, search_google_scholar query lg
          = reported "Error in Google Scholar search: " e lg).
Proof.
  rewrite search_google_scholar_run.
  destruct (scholarly_search_pubs query) as [search_query|e]; [|right; by exists e].
  destruct (scholar_loop 15 search_query []) as [papers|e] eqn:Hloop; [|right; by exists e].
  left. exists papers. split; [done|].
  by apply scholar_loop_bound in Hloop.
Qed.

(** X10: the publications are taken in order up to the 15th, the end of
    the iterator or the first empty one, whichever comes first; what
    the iterator holds after that point is never looked at. *)
Theorem search_google_scholar_results query papers entries tail lg :
  scholarly_search_pubs query = Ret (map Ret papers ++ tail) →
  Forall2 (λ paper entry, py_truth paper = true ∧ paper_entry paper = Ret entry)
          papers entries →
  length papers ≤ 15 →
  length papers = 15 ∨ tail = []
  ∨ (∃ v rest, tail = Ret v :: rest ∧ py_truth v = false) →
  search_google_scholar query lg = (Ret (PList entries), lg).
Proof.
  intros Hs Hall Hlen Hstop. rewrite search_google_scholar_run, Hs.
  rewrite (scholar_loop_prefix _ _ _ _ _ Hall Hlen). simpl.
  destruct Hstop as [->|[->|(v & rest & -> & Hv)]].
  - by rewrite Nat.sub_diag.
  - by destruct (15 - length papers).
  - destruct (15 - length papers); [done|].
    cbn [scholar_loop next_or_none]. unfold mbind, outcome_bind. by rewrite Hv.
Qed.

(** X11: when the search cannot start, or when among the first 15
    publications, before any empty one, the iterator raises or a
    publication cannot be read, the result is the error dictionary: the
    publications gathered so far are not returned. *)
Theorem search_google_scholar_failure query e lg :
  scholarly_search_pubs query = Raise e
  ∨ (∃ papers entries x tail,
       scholarly_search_pubs query = Ret (map Ret papers ++ x :: tail) ∧
       Forall2 (λ paper entry, py_truth paper = true ∧ paper_entry paper = Ret entry)
               papers entries ∧
       length papers < 15 ∧
       (x = Raise e ∨ ∃ v, x = Ret v ∧ py_truth v = true ∧ paper_entry v = Raise e)) →
  search_google_scholar query lg = reported "Error in Google Scholar search: " e lg.
Proof.
  rewrite search_google_scholar_run.
  intros [->|(papers & entries & x & tail & -> & Hall & Hlen & Hx)]; [done|].
  rewrite (scholar_loop_prefix _ _ _ _ _ Hall) by lia.
  destruct (15 - length papers) as [|n] eqn:Hn; [lia|].
  cbn [scholar_loop]. unfold mbind, outcome_bind.
  destruct Hx as [->|(v & -> & Hv & He)]; [done|].
  cbn [next_or_none]. by rewrite Hv, He.
Qed.

(** X12: a publication can be read exactly when it is a dictionary
    whose [bib], if present, is a dictionary. *)
Theorem paper_entry_raises_iff paper :
  (∃ e, paper_entry paper = Raise e) ↔
  (∀ d, paper ≠ PDict d)
  ∨ (∃ d v, paper = PDict d ∧ dict_lookup "bib" d = Some v ∧ ∀ b, v ≠ PDict b).
Proof.
  split.
  - intros [e He]. destruct paper as [| | | | |d]; try (left; by intros d).
    right. unfold paper_entry, mbind, outcome_bind, mret, outcome_ret in He.
    rewrite !py_get_dict in He.
    destruct (dict_lookup "bib" d) as [v|] eqn:Hb; [|done].
    exists d, v. split; [done|]. split; [done|].
    intros b ->. by simpl in He.
  - intros [Hnd|(d & v & -> & Hb & Hv)].
    + destruct paper; try by eexists. by destruct (Hnd d).
    + unfold paper_entry, mbind, outcome_bind. rewrite !py_get_dict, Hb. simpl.
      destruct v; try by eexists. by destruct (Hv d0).
Qed.

Lemma video_entry_shape item entry :
  video_entry item = Ret entry → is_video_entry entry.
Proof.
  unfold video_entry, mbind, outcome_bind, mret, outcome_ret.
  destruct (py_getitem item "snippet") as [snippet|]; [|done].
  destruct (py_getitem snippet "title") as [title|]; [|done].
  destruct (py_getitem item "id") as [id|]; [|done].
  destruct (py_getitem id "videoId") as [video_id|]; [|done].
  destruct (py_getitem snippet "description") as [description|]; [|done].
  destruct (py_getitem snippet "thumbnails") as [thumbnails|]; [|done].
  destruct (py_getitem thumbnails "high") as [high|]; [|done].
  destruct (py_getitem high "url") as [url|]; [|done].
  intros [= <-]. by exists title, (py_str video_id), description, url.
Qed.

Lemma videos_loop_shape items videos out :
  videos_loop items videos = Ret out →
  Forall is_video_entry videos →
  Forall is_video_entry out ∧ length out = length videos + length items.
Proof.
  revert videos. induction items as [|item rest IH]; intros videos.
  - simpl. intros [= <-] ?. split; [done|lia].
  - cbn [videos_loop]. unfold mbind, outcome_bind.
    destruct (video_entry item) as [entry|] eqn:He; [|done].
    intros Hloop Hall. apply IH in Hloop as [Hout Hlen].
    + rewrite length_app in Hlen. simpl in *. split; [done|lia].
    + apply Forall_app. split; [done|]. constructor; [|done].
      by apply video_entry_shape in He.
Qed.

Lemma videos_loop_prefix items entries rest videos :
  Forall2 (λ item entry, video_entry item = Ret entry) items entries →
  videos_loop (items ++ rest) videos = videos_loop rest (videos ++ entries).
Proof.
  intros Hall. revert videos.
  induction Hall as [|item entry items entries He _ IH]; intros videos.
  - by rewrite app_nil_r.
  - cbn [app videos_loop]. unfold mbind, outcome_bind. rewrite He, IH.
    by rewrite <- app_assoc.
Qed.

Lemma search_youtube_run query api_key lg :
  search_youtube query api_key lg
  = match
      youtube ← build_youtube api_key;
      response ← search_list_execute youtube (short_videos query);
      items ← py_get response "items" (PList []);
      item_list ← py_iter items;
      videos_loop item_list []
    with
    | Ret videos => (Ret (PList videos), lg)
    | Raise e => reported "Error in YouTube search: " e lg
    end.
Proof.
  unfold search_youtube, try_except, mbind, M_bind, outcome_bind, call.
  fold (short_videos query).
  destruct (build_youtube api_key) as [youtube|]; [|done].
  destruct (search_list_execute youtube (short_videos query)) as [response|]; [|done].
  destruct (py_get response "items" (PList [])) as [items|]; [|done].
  destruct (py_iter items) as [item_list|]; [|done].
  by destruct (videos_loop item_list []).
Qed.

(** X13: [search_youtube] never raises.  It returns either a list of
    dictionaries, each with the keys [title], [link], [description] and
    [thumbnail], the link being the watch address of a video, leaving
    the log as it was; or the dictionary [{"error": message}], after
    logging that same message as an error. *)
Theorem search_youtube_outcome query api_key lg :
  (∃ videos,
     search_youtube query api_key lg = (Ret (PList videos), lg) ∧
     Forall is_video_entry videos)
  ∨ (∃ e, search_youtube query api_key lg = reported "Error in YouTube search: " e lg).
Proof.
  rewrite search_youtube_run. unfold mbind, outcome_bind.
  destruct (build_youtube api_key) as [youtube|e]; [|right; by exists e].
  destruct (search_list_execute youtube (short_videos query)) as [response|e];
    [|right; by exists e].
  destruct (py_get response "items" (PList [])) as [items|e]; [|right; by exists e].
  destruct (py_iter items) as [item_list|e]; [|right; by exists e].
  destruct (videos_loop item_list []) as [videos|e] eqn:Hloop; [|right; by exists e].
  left. exists videos. split; [done|].
  by apply videos_loop_shape in Hloop as [? _].
Qed.

(** X14: when the service answers a dictionary, the videos returned
    are those of its [items], one for each and in their order, however
    many there are, and none when the answer has no [items]. *)
Theorem search_youtube_results query api_key youtube d items entries lg :
  build_youtube api_key = Ret youtube →
  search_list_execute youtube (short_videos query) = Ret (PDict d) →
  from_option id (PList []) (dict_lookup "items" d) = PList items →
  Forall2 (λ item entry, video_entry item = Ret entry) items entries →
  search_youtube query api_key lg = (Ret (PList entries), lg)
  ∧ length entries = length items.
Proof.
  intros Hb He Hi Hall. split; [|symmetry; by eapply Forall2_length].
  rewrite search_youtube_run. unfold mbind, outcome_bind.
  rewrite Hb, He, py_get_dict, Hi. cbn [py_iter].
  rewrite <- (app_nil_r items), (videos_loop_prefix _ _ _ _ Hall). done.
Qed.

(** X15: when the service cannot be built or does not answer, or when
    one item of the answer lacks a field, the result is the error
    dictionary: the videos of the other items are not returned. *)
Theorem search_youtube_failure query api_key e lg :
  build_youtube api_key = Raise e
  ∨ (∃ youtube, build_youtube api_key = Ret youtube ∧
       (search_list_execute youtube (short_videos query) = Raise e
        ∨ ∃ d items entries item rest,
            search_list_execute youtube (short_videos query) = Ret (PDict d) ∧
            dict_lookup "items" d = Some (PList (items ++ item :: rest)) ∧
            Forall2 (λ item entry, video_entry item = Ret entry) items entries ∧
            video_entry item = Raise e)) →
  search_youtube query api_key lg = reported "Error in YouTube search: " e lg.
Proof.
  rewrite search_youtube_run. unfold mbind, outcome_bind.
  intros [->|(youtube & -> & [->|(d & items & entries & item & rest & -> & Hi & Hall & He)])];
    [done..|].
  rewrite py_get_dict, Hi. cbn [from_option id py_iter].
  rewrite (videos_loop_prefix _ _ _ _ Hall). cbn [videos_loop].
  unfold mbind, outcome_bind. by rewrite He.
Qed.

End Search_facts.

(** ** The route *)

Section Route_facts.

Context `{W : Collaborators} `{R : PyRuntime} `{Sv : SearchServices}.

Lemma search_google_scholar_returns query :
  ∃ pdfs, ∀ lg, ∃ lg', search_google_scholar query lg = (Ret pdfs, lg').
Proof.
  setoid_rewrite search_google_scholar_run.
  destruct (scholarly_search_pubs query) as [search_query|e]; [|by eexists; eexists].
  destruct (scholar_loop 15 search_query []); by eexists; eexists.
Qed.

Lemma search_youtube_returns query api_key :
  ∃ videos, ∀ lg, ∃ lg', search_youtube query api_key lg = (Ret videos, lg').
Proof.
  setoid_rewrite search_youtube_run.
  destruct (_ ≫= _); by eexists; eexists.
Qed.

Lemma filter_images_by_query_returns image_dir query :
  os_path_exists image_dir = false ∨ (∃ files, os_listdir image_dir = Ret files) →
  ∃ m, ∀ lg, ∃ lg', filter_images_by_query image_dir query lg = (Ret m, lg').
Proof.
  intros Hdir. destruct (os_path_exists image_dir) eqn:He.
  - destruct Hdir as [?|[files Hl]]; [done|].
    eexists. intros lg. apply (filter_images_by_query_listed _ _ _ lg He Hl).
  - eexists. intros lg. unfold filter_images_by_query. rewrite He. by eexists.
Qed.

Lemma not_bad_request args :
  ¬ bad_request args →
  truthy (args_get args "query" "") = true
  ∧ truthy (args_get args "youtube_api_key" "") = true.
Proof.
  unfold bad_request. intros Hok.
  split; apply not_false_iff_true; rewrite truthy_false; tauto.
Qed.

Lemma process_query_run args lg :
  ¬ bad_request args →
  ∃ pdfs videos lg',
    (∀ lg0, result (search_google_scholar (args_get args "query" "")) lg0 = Ret pdfs) ∧
    (∀ lg0, result (search_youtube (args_get args "query" "")
                      (args_get args "youtube_api_key" "")) lg0 = Ret videos) ∧
    process_query args lg
    = match filter_images_by_query (args_get args "image_dir" "images/")
              (args_get args "query" "") lg' with
      | (Ret image_keywords, lg'') =>
          (Ret {| body := SearchBody pdfs videos image_keywords; status := 200 |}, lg'')
      | (Raise e, lg'') => (Raise e, lg'')
      end.
Proof.
  intros [Hq Hk]%not_bad_request.
  destruct (search_google_scholar_returns (args_get args "query" "")) as [pdfs Hp].
  destruct (search_youtube_returns (args_get args "query" "")
              (args_get args "youtube_api_key" "")) as [videos Hv].
  destruct (Hp lg) as [lg1 Hp1]. destruct (Hv lg1) as [lg2 Hv2].
  exists pdfs, videos, lg2. split; [|split].
  - intros lg0. unfold result. by destruct (Hp lg0) as [? ->].
  - intros lg0. unfold result. by destruct (Hv lg0) as [? ->].
  - unfold process_query. rewrite Hq, Hk. cbn [negb orb].
    unfold mbind, M_bind. rewrite Hp1, Hv2.
    by destruct (filter_images_by_query _ _ lg2) as [[?|?] ?].
Qed.

Lemma process_query_refused args lg :
  bad_request args →
  process_query args lg
  = (Ret {| body := ErrorBody "Please provide both 'query' and 'youtube_api_key'";
            status := 400 |}, lg).
Proof.
  unfold bad_request, process_query.
  intros [Hb|Hb]; apply truthy_false in Hb; rewrite Hb; cbn [negb orb]; [done|].
  by rewrite orb_true_r.
Qed.

(** X16: the route answers 400 with its error message, logging
    nothing and whatever the services would answer, exactly when the
    request has no query or no key, or an empty one. *)
Theorem process_query_bad_request args lg :
  bad_request args ↔
  process_query args lg
  = (Ret {| body := ErrorBody "Please provide both 'query' and 'youtube_api_key'";
            status := 400 |}, lg).
Proof.
  split; [apply process_query_refused|].
  intros Hrun. destruct (decide (bad_request args)) as [|Hok]; [done|].
  destruct (process_query_run args lg Hok) as (pdfs & videos & lg' & _ & _ & Hp).
  rewrite Hp in Hrun.
  by destruct (filter_images_by_query _ _ lg') as [[?|?] ?].
Qed.

(** X17: the route raises exactly when the request has a query and a
    key and the image directory exists but cannot be listed; a failure
    of either search alone never makes it raise. *)
Theorem process_query_raises_iff args lg :
  (∃ e lg', process_query args lg = (Raise e, lg')) ↔
  ¬ bad_request args
  ∧ os_path_exists (args_get args "image_dir" "images/") = true
  ∧ ∃ e, os_listdir (args_get args "image_dir" "images/") = Raise e.
Proof.
  split.
  - intros (e & lg' & Hrun).
    destruct (decide (bad_request args)) as [Hbad|Hok].
    { apply (process_query_refused args lg) in Hbad. congruence. }
    split; [done|].
    destruct (process_query_run args lg Hok) as (pdfs & videos & lg1 & _ & _ & Hp).
    rewrite Hp in Hrun. clear Hp.
    destruct (os_path_exists (args_get args "image_dir" "images/")) eqn:He.
    + split; [done|].
      destruct (os_listdir (args_get args "image_dir" "images/")) as [files|ex] eqn:Hl;
        [|by exists ex].
      destruct (filter_images_by_query_listed _ (args_get args "query" "") files lg1 He Hl)
        as [? Hf].
      by rewrite Hf in Hrun.
    + unfold filter_images_by_query in Hrun. by rewrite He in Hrun.
  - intros (Hok & He & ex & Hl).
    destruct (process_query_run args lg Hok) as (pdfs & videos & lg1 & _ & _ & Hp).
    rewrite Hp, (filter_images_by_query_unlistable _ _ ex lg1 He Hl). by eexists _, _.
Qed.

(** X18: for a request with a query and a key, when the image
    directory is missing or can be listed, the route answers 200 with
    three parts, each being what its function returns on its own for
    that query: an error met by one search stays in its own part. *)
Theorem process_query_results args lg :
  ¬ bad_request args →
  os_path_exists (args_get args "image_dir" "images/") = false
  ∨ (∃ files, os_listdir (args_get args "image_dir" "images/") = Ret files) →
  ∃ pdfs videos image_keywords lg',
    process_query args lg
    = (Ret {| body := SearchBody pdfs videos image_keywords; status := 200 |}, lg') ∧
    (∀ lg0, result (search_google_scholar (args_get args "query" "")) lg0 = Ret pdfs) ∧
    (∀ lg0, result (search_youtube (args_get args "query" "")
                      (args_get args "youtube_api_key" "")) lg0 = Ret videos) ∧
    (∀ lg0, result (filter_images_by_query (args_get args "image_dir" "images/")
                      (args_get args "query" "")) lg0 = Ret image_keywords).
Proof.
  intros Hok Hdir.
  destruct (process_query_run args lg Hok) as (pdfs & videos & lg1 & Hp & Hv & Hrun).
  destruct (filter_images_by_query_returns _ (args_get args "query" "") Hdir) as [m Hm].
  destruct (Hm lg1) as [lg2 Hm2]. rewrite Hm2 in Hrun.
  exists pdfs, videos, m, lg2. split; [done|]. split; [done|]. split; [done|].
  intros lg0. unfold result. by destruct (Hm lg0) as [? ->].
Qed.

(** X19: a query of whitespace passes the test on the request, and is
    answered 200 with no image, whatever the directory lists. *)
Theorem process_query_blank_query {HT : TokenizerContract W} args files lg :
  args_get args "query" "" ≠ "" → blank (args_get args "query" "") →
  args_get args "youtube_api_key" "" ≠ "" →
  os_path_exists (args_get args "image_dir" "images/") = true →
  os_listdir (args_get args "image_dir" "images/") = Ret files →
  ∃ pdfs videos lg',
    process_query args lg
    = (Ret {| body := SearchBody pdfs videos ∅; status := 200 |}, lg').
Proof.
  intros Hq Hb Hk He Hl.
  assert (¬ bad_request args) as Hok by (unfold bad_request; tauto).
  destruct (process_query_run args lg Hok) as (pdfs & videos & lg1 & _ & _ & Hrun).
  destruct (filter_images_by_query_listed _ (args_get args "query" "") files lg1 He Hl)
    as [lg2 Hf].
  rewrite Hf, preprocess_query_blank in Hrun by done.
  exists pdfs, videos, lg2. rewrite Hrun.
  assert (scan_dict [] (args_get args "image_dir" "images/") files ∅ = ∅) as ->; [|done].
  apply map_eq. intros f. rewrite scan_dict_lookup. unfold selected.
  by rewrite any_match_nil_l, !andb_false_r.
Qed.

End Route_facts.

(** ** Runs of the further properties *)

Section Extra_runs.

Import Fixture ServiceFixture.

Local Abbreviation W0 := Fixture.world.
Local Abbreviation R0 := ServiceFixture.runtime.
Local Abbreviation S0 := ServiceFixture.services.

(** X1, witness: the picture [broken.png] cannot be opened. *)
Lemma extract_text_from_image_failure_witness :
  PILImage_open (Collaborators := W0) "images/broken.png"
  = Raise (Exception "cannot identify image file images/broken.png") ∧
  extract_text_from_image (W := W0) "images/broken.png" []
  = (Ret "", [(ERROR, "Error processing image images/broken.png: cannot identify image file images/broken.png")]) ∧
  result (extract_keywords_from_image (W := W0) "images/broken.png") [] = Ret [].
Proof.
  split; [reflexivity|].
  apply (extract_text_from_image_failure (W := W0) "images/broken.png" []
           (Exception "cannot identify image file images/broken.png")).
  left. reflexivity.
Defined.

(** X2, witness: four of the five files of [images] are read. *)
Lemma filter_images_by_query_log_witness :
  os_path_exists (Collaborators := W0) "images" = true ∧
  os_listdir (Collaborators := W0) "images" = Ret listing ∧
  filter is_image_file listing = ["cat.png"; "Dog.JPEG"; "blank.jpg"; "broken.png"] ∧
  ∃ records,
    log_after (filter_images_by_query (W := W0) "images" "") [] = [] ++ records ∧
    length records = 4.
Proof.
  split; [reflexivity|]. split; [reflexivity|]. split; [reflexivity|].
  destruct (filter_images_by_query_log (W := W0) "images" "" listing [])
    as (records & Hlog & Hall); [reflexivity | reflexivity |].
  exists records. split; [exact Hlog|].
  apply Forall2_length in Hall. rewrite <- Hall. reflexivity.
Defined.

(** X3, witness: two listings of the same two files. *)
Lemma scan_images_order_irrelevant_witness :
  (∀ image_file : string,
     image_file ∈ ["cat.png"; "Dog.JPEG"] ↔ image_file ∈ ["Dog.JPEG"; "cat.png"; "Dog.JPEG"]) ∧
  result (scan_images (W := W0) ["cat"; "dog"] "images" ["cat.png"; "Dog.JPEG"] ∅) []
  = result (scan_images (W := W0) ["cat"; "dog"] "images"
              ["Dog.JPEG"; "cat.png"; "Dog.JPEG"] ∅) [].
Proof.
  assert (∀ image_file : string,
            image_file ∈ ["cat.png"; "Dog.JPEG"]
            ↔ image_file ∈ ["Dog.JPEG"; "cat.png"; "Dog.JPEG"]) as Hsame.
  { intros image_file. rewrite !elem_of_cons, !elem_of_nil. tauto. }
  split; [exact Hsame|].
  exact (scan_images_order_irrelevant (W := W0) _ _ _ _ ∅ [] [] Hsame).
Defined.

(** X4, witness: at most four entries for the directory [images]. *)
Lemma filter_images_by_query_size_witness :
  os_path_exists (Collaborators := W0) "images" = true ∧
  os_listdir (Collaborators := W0) "images" = Ret listing ∧
  ∃ m, result (filter_images_by_query (W := W0) "images" "cat dog") [] = Ret m ∧
       size m ≤ 4.
Proof.
  split; [reflexivity|]. split; [reflexivity|].
  destruct (filter_images_by_query_size (W := W0) "images" "cat dog" listing [])
    as (m & Hr & Hsize); [reflexivity | reflexivity |].
  exists m. split; [exact Hr|]. exact Hsize.
Defined.

(** X6, witness: the entry of [cat.png] for the query [the Cat]. *)
Lemma filter_images_by_query_entry_evidence_witness :
  let e := {| image_path := "/images/cat.png"; keywords := ["category theory"] |} in
  result (filter_images_by_query (W := W0) "images" "the Cat") []
  = Ret {["cat.png" := VImage e]} ∧
  keywords e ≠ [] ∧ preprocess_query (W := W0) "the Cat" ≠ [].
Proof.
  intros e.
  assert (result (filter_images_by_query (W := W0) "images" "the Cat") []
          = Ret {["cat.png" := VImage e]}) as Hr by (vm_compute; reflexivity).
  split; [exact Hr|].
  refine (proj2 (filter_images_by_query_entry_evidence (W := W0) _ _ _ _ "cat.png" e Hr _)).
  vm_compute; reflexivity.
Defined.

(** X7, witness: the directory [nowhere] does not exist. *)
Lemma filter_images_by_query_error_key_witness :
  ∃ m, result (filter_images_by_query (W := W0) "nowhere" "cat") [] = Ret m ∧
       is_Some (m !! "error") ∧
       m = {["error" := VStr "Image directory nowhere not found"]}.
Proof.
  eexists. split; [reflexivity|].
  destruct (filter_images_by_query_error_key (W := W0) "nowhere" "cat" [] _ eq_refl)
    as [Hiff Hm].
  split; [by apply Hiff | by apply Hm].
Defined.

(** X8, witness: the queries [cat] and [cat dog]. *)
Lemma filter_images_by_query_more_tokens_witness :
  preprocess_query (W := W0) "cat" ⊆ preprocess_query (W := W0) "cat dog" ∧
  ∃ m1 m2,
    result (filter_images_by_query (W := W0) "images" "cat") [] = Ret m1 ∧
    result (filter_images_by_query (W := W0) "images" "cat dog") [] = Ret m2 ∧
    m1 ⊆ m2.
Proof.
  assert (preprocess_query (W := W0) "cat" ⊆ preprocess_query (W := W0) "cat dog") as Hsub.
  { change (["cat"] ⊆ ["cat"; "dog"]). intros t ->%list_elem_of_singleton. by left. }
  split; [exact Hsub|].
  apply (filter_images_by_query_more_tokens (W := W0) "images" "cat" "cat dog" listing [] []);
    [reflexivity | reflexivity | exact Hsub].
Defined.

(** X10, witness: the two publications found for [cat]. *)
Lemma search_google_scholar_results_witness :
  scholarly_search_pubs (SearchServices := S0) "cat"
  = Ret (map Ret [paper_full; paper_bare] ++ []) ∧
  search_google_scholar (R := R0) (Sv := S0) "cat" []
  = (Ret (PList [PDict [("title", PStr "Cats"); ("authors", PList [PStr "A. Smith"]);
                        ("link", PStr "http://example.org/cats")];
                 PDict [("title", PStr "N/A"); ("authors", PStr "N/A");
                        ("link", PStr "N/A")]]), []).
Proof.
  split; [reflexivity|].
  apply (search_google_scholar_results (R := R0) (Sv := S0) "cat"
           [paper_full; paper_bare] _ [] []).
  - reflexivity.
  - repeat constructor.
  - simpl. lia.
  - right. by left.
Defined.

(** X11, witness: the iterator breaks after the first publication
    found for [dog]. *)
Lemma search_google_scholar_failure_witness :
  scholarly_search_pubs (SearchServices := S0) "dog"
  = Ret (map Ret [paper_full] ++ Raise (Exception "timed out") :: []) ∧
  search_google_scholar (R := R0) (Sv := S0) "dog" []
  = (Ret (PDict [("error", PStr "Error in Google Scholar search: timed out")]),
     [(ERROR, "Error in Google Scholar search: timed out")]).
Proof.
  split; [reflexivity|].
  apply (search_google_scholar_failure (R := R0) (Sv := S0) "dog"
           (Exception "timed out") []).
  right. eexists [paper_full], _, (Raise (Exception "timed out")), [].
  split; [reflexivity|]. split; [repeat constructor|]. split; [simpl; lia|]. by left.
Defined.

(** X14, witness: the two videos found for [cat]. *)
Lemma search_youtube_results_witness :
  build_youtube (SearchServices := S0) "key" = Ret "key" ∧
  search_youtube (R := R0) (Sv := S0) "cat" "key" []
  = (Ret (PList [PDict [("title", PStr "Cat video");
                        ("link", PStr "https://www.youtube.com/watch?v=abc");
                        ("description", PStr "About Cat video");
                        ("thumbnail", PStr "http://img/abc")];
                 PDict [("title", PStr "More cats");
                        ("link", PStr "https://www.youtube.com/watch?v=def");
                        ("description", PStr "About More cats");
                        ("thumbnail", PStr "http://img/def")]]), []).
Proof.
  split; [reflexivity|].
  eapply proj1.
  eapply (search_youtube_results (R := R0) (Sv := S0) "cat" "key" "key").
  - reflexivity.
  - reflexivity.
  - reflexivity.
  - repeat constructor.
Defined.

(** X15, witness: the second item found for [horse] has no [snippet]. *)
Lemma search_youtube_failure_witness :
  video_entry (R := R0) item_without_snippet = Raise (key_error "snippet") ∧
  search_youtube (R := R0) (Sv := S0) "horse" "key" []
  = (Ret (PDict [("error", PStr "Error in YouTube search: 'snippet'")]),
     [(ERROR, "Error in YouTube search: 'snippet'")]).
Proof.
  split; [reflexivity|].
  apply (search_youtube_failure (R := R0) (Sv := S0) "horse" "key"
           (key_error "snippet") []).
  right. exists "key". split; [reflexivity|]. right.
  eexists _, [item "abc" "Cat video"], _, item_without_snippet, [].
  split; [reflexivity|]. split; [reflexivity|]. split; [repeat constructor|reflexivity].
Defined.

(** X18, witness: a request for [cat] over the directory [images]. *)
Lemma process_query_results_witness :
  let args : gmap string string :=
    {["query" := "cat"; "youtube_api_key" := "key"; "image_dir" := "images"]} in
  ¬ bad_request args ∧
  ∃ pdfs videos image_keywords lg',
    process_query (W := W0) (R := R0) (Sv := S0) args []
    = (Ret {| body := SearchBody pdfs videos image_keywords; status := 200 |}, lg') ∧
    result (filter_images_by_query (W := W0) "images" "cat") [] = Ret image_keywords.
Proof.
  intros args.
  assert (¬ bad_request args) as Hok.
  { intros [Hb|Hb]; vm_compute in Hb; discriminate. }
  split; [exact Hok|].
  destruct (process_query_results (W := W0) (R := R0) (Sv := S0) args [] Hok)
    as (pdfs & videos & image_keywords & lg' & Hrun & _ & _ & Himg).
  { right. exists listing. reflexivity. }
  exists pdfs, videos, image_keywords, lg'. split; [exact Hrun|]. exact (Himg []).
Defined.

(** X19, witness: a request whose query is one space. *)
Lemma process_query_blank_query_witness :
  let args : gmap string string :=
    {["query" := " "; "youtube_api_key" := "key"; "image_dir" := "images"]} in
  args_get args "query" "" ≠ "" ∧ blank (args_get args "query" "") ∧
  ∃ pdfs videos lg',
    process_query (W := W0) (R := R0) (Sv := S0) args []
    = (Ret {| body := SearchBody pdfs videos ∅; status := 200 |}, lg').
Proof.
  intros args.
  assert (args_get args "query" "" ≠ "") as Hq by (vm_compute; discriminate).
  assert (blank (args_get args "query" "")) as Hb by (repeat constructor).
  split; [exact Hq|]. split; [exact Hb|].
  apply (process_query_blank_query (W := W0) (R := R0) (Sv := S0) (HT := world_tokenizer)
           args listing [] Hq Hb); [vm_compute; discriminate | reflexivity | reflexivity].
Defined.

End Extra_runs.

